(** * TimeLib: a software real-time clock for embedded devices

    Shallow embedding of [TimeLib.c] and verification of its calendar
    conversions ([time_make], [time_break]) and of its clock state machine
    ([time_set], [time_get], [time_set_provider]).

    Integers of a fixed width are mathematical integers ([Z]) reduced modulo
    their width wherever the C code stores them.  The widths that C leaves to
    the platform ([unsigned], [unsigned long], [time_t]) and the tick rate are
    gathered in a [platform] record. *)

From Stdlib Require Import ZArith List Bool Lia Sorted.
Import ListNotations.
Open Scope Z_scope.

(* ===================================================================== *)
(** * Machine integers *)
(* ===================================================================== *)

(** Value of an unsigned integer of [bits] bits after a store or a cast. *)
Definition wrap (bits x : Z) : Z := x mod 2 ^ bits.

Definition wrap8  : Z -> Z := wrap 8.    (* uint8_t  *)
Definition wrap32 : Z -> Z := wrap 32.   (* uint32_t *)

(** Modelled from the spec: the typedef [time_t] of [TimeLib.h] (an unsigned
    integer of at least 32 bits) and the macro [TICK_SECOND] of the board's
    tick header (a strictly positive number of ticks per second).  Their
    width and value are parameters of the model, next to the widths that the
    C standard leaves to the platform. *)
Record platform : Type := {
  uint_bits   : Z;   (* width of [unsigned int]                  *)
  ulong_bits  : Z;   (* width of [unsigned long]                 *)
  time_bits   : Z;   (* width of [time_t], an unsigned type      *)
  TICK_SECOND : Z    (* ticks of the hardware counter per second *)
}.

(** The guarantees of the C standard on the widths (at least 16 and 32 bits,
    [unsigned long] no narrower than [unsigned]), a [time_t] of at least 32
    bits and a strictly positive tick rate. *)
Record platform_ok (p : platform) : Prop := {
  uint_ge_16       : 16 <= uint_bits p;
  ulong_ge_32      : 32 <= ulong_bits p;
  ulong_ge_uint    : uint_bits p <= ulong_bits p;
  time_ge_32       : 32 <= time_bits p;
  TICK_SECOND_pos  : 0 < TICK_SECOND p
}.

Definition wrapUI (p : platform) : Z -> Z := wrap (uint_bits p).
Definition wrapUL (p : platform) : Z -> Z := wrap (ulong_bits p).
Definition wrapT  (p : platform) : Z -> Z := wrap (time_bits p).

(** A small 8-bit board and a 64-bit host, both at 1000 ticks per second. *)
Definition avr8 : platform :=
  {| uint_bits := 16; ulong_bits := 32; time_bits := 32; TICK_SECOND := 1000 |}.
Definition host64 : platform :=
  {| uint_bits := 32; ulong_bits := 64; time_bits := 64; TICK_SECOND := 1000 |}.

(* ===================================================================== *)
(** * Calendar arithmetic *)
(* ===================================================================== *)

(** Modelled from the spec: the macros [TIME_SECS_PER_DAY],
    [TIME_SECS_PER_HOUR] and [TIME_SECS_PER_MINUTE] of [TimeLib.h]; the spec
    gives their values as 86400, 3600 and 60. *)
Definition TIME_SECS_PER_DAY    : Z := 86400.
Definition TIME_SECS_PER_HOUR   : Z := 3600.
Definition TIME_SECS_PER_MINUTE : Z := 60.

(** Modelled from the spec: [struct tm_t] of [TimeLib.h], with the fields the
    source reads and writes.  The header fixes their integer types; every
    value [time_break] stores is below 256 ([time_break_fields_range]), so it
    fits whatever unsigned type they have. *)
Record tm_t : Type := {
  tm_sec  : Z;
  tm_min  : Z;
  tm_hour : Z;
  tm_wday : Z;
  tm_mday : Z;
  tm_mon  : Z;
  tm_year : Z
}.

(** [const unsigned char month_length[]] *)
Definition month_length : list Z := [31; 28; 31; 30; 31; 30; 31; 31; 30; 31; 30; 31].

(** [month_length[i]]; an index outside the table is outside the C array,
    where this model reads 0. *)
Definition month_length_at (i : Z) : Z :=
  if i <? 0 then 0 else nth (Z.to_nat i) month_length 0.

(** [static int time_is_leap(unsigned int year)] *)
Definition time_is_leap (year : Z) : bool :=
  ((year mod 4 =? 0) && negb (year mod 100 =? 0)) || (year mod 400 =? 0).

(** [for (i = 0; i < timeinfo->tm_year; i++)] of [time_make]: [n] counts the
    iterations left, [i] is the loop variable. *)
Fixpoint make_year_loop (n : nat) (i tstamp : Z) : Z :=
  match n with
  | O => tstamp
  | S n' =>
      make_year_loop n' (i + 1)
        (if time_is_leap (i + 1970)
         then wrap32 (tstamp + TIME_SECS_PER_DAY)
         else tstamp)
  end.

(** [for (i = 1; i < timeinfo->tm_mon; i++)] of [time_make]. *)
Fixpoint make_month_loop (n : nat) (year i tstamp : Z) : Z :=
  match n with
  | O => tstamp
  | S n' =>
      make_month_loop n' year (i + 1)
        (if (i =? 2) && time_is_leap (year + 1970)
         then wrap32 (tstamp + TIME_SECS_PER_DAY * 29)
         else wrap32 (tstamp + TIME_SECS_PER_DAY * month_length_at (i - 1)))
  end.

(** [time_t time_make(struct tm_t * timeinfo)]: [tstamp] is a [uint32_t], so
    every assignment to it reduces modulo 2^32. *)
Definition time_make (timeinfo : tm_t) : Z :=
  let tstamp := wrap32 (tm_year timeinfo * (TIME_SECS_PER_DAY * 365)) in
  let tstamp := make_year_loop (Z.to_nat (tm_year timeinfo)) 0 tstamp in
  let tstamp :=
    make_month_loop (Z.to_nat (tm_mon timeinfo - 1)) (tm_year timeinfo) 1 tstamp in
  let tstamp :=
    wrap32 (tstamp + wrap32 (tm_mday timeinfo - 1) * wrap32 TIME_SECS_PER_DAY) in
  let tstamp :=
    wrap32 (tstamp + wrap32 (tm_hour timeinfo) * wrap32 TIME_SECS_PER_HOUR) in
  let tstamp :=
    wrap32 (tstamp + wrap32 (tm_min timeinfo) * wrap32 TIME_SECS_PER_MINUTE) in
  wrap32 (tstamp + wrap32 (tm_sec timeinfo)).

(** Days of the year [1970 + year], as both loops of [time_break] compute
    them. *)
Definition year_days (year : Z) : Z :=
  if time_is_leap (1970 + year) then 366 else 365.

(** [while ((unsigned) (days += ...) <= xTime) year++;] of [time_break].
    The guard adds to [days] before it compares, also on the round that
    leaves the loop.  [year] is a [uint8_t] and [days] an [unsigned long].
    [fuel] bounds the rounds; [break_year_loop_exits] shows that the loop
    leaves through its guard. *)
Fixpoint break_year_loop (p : platform) (fuel : nat) (xTime year days : Z)
  : Z * Z :=
  let days := wrapUL p (days + year_days year) in
  match fuel with
  | O => (year, days)
  | S fuel' =>
      if wrapUI p days <=? xTime
      then break_year_loop p fuel' xTime (wrap8 (year + 1)) days
      else (year, days)
  end.

(** [monthLength] inside the month loop of [time_break]. *)
Definition break_month_length (year month : Z) : Z :=
  if month =? 1
  then (if time_is_leap (1970 + year) then 29 else 28)
  else month_length_at month.

(** [for (month = 0; month < 12; month++) { ... break; }] of [time_break];
    [month] is a [uint8_t], [xTime] a [uint32_t]. *)
Fixpoint break_month_loop (fuel : nat) (year month xTime : Z) : Z * Z :=
  match fuel with
  | O => (month, xTime)
  | S fuel' =>
      if month <? 12 then
        let monthLength := break_month_length year month in
        if monthLength <=? xTime
        then break_month_loop fuel' year (wrap8 (month + 1))
               (wrap32 (xTime - monthLength))
        else (month, xTime)
      else (month, xTime)
  end.

(** [void time_break(time_t timeinput, struct tm_t * timeinfo)], returning
    the structure it fills. *)
Definition time_break (p : platform) (timeinput : Z) : tm_t :=
  let xTime := wrap32 timeinput in
  let sec := xTime mod 60 in
  let xTime := xTime / 60 in
  let min := xTime mod 60 in
  let xTime := xTime / 60 in
  let hour := xTime mod 24 in
  let xTime := xTime / 24 in
  let wday := wrap32 (xTime + 4) mod 7 + 1 in
  let '(year, days) := break_year_loop p 256 xTime 0 0 in
  let days := wrapUL p (days - year_days year) in
  let xTime := wrap32 (xTime - days) in
  let '(month, xTime) := break_month_loop 13 year 0 xTime in
  {| tm_sec := sec; tm_min := min; tm_hour := hour; tm_wday := wday;
     tm_mday := xTime + 1; tm_mon := month + 1; tm_year := year |}.

(** The conversions without the 32-bit storage, for comparison: the sum
    [time_make] accumulates, kept as an unbounded integer. *)
Fixpoint leap_years_before (n : nat) (i : Z) : Z :=
  match n with
  | O => 0
  | S n' => (if time_is_leap (i + 1970) then 1 else 0) + leap_years_before n' (i + 1)
  end.

Fixpoint month_days_before (n : nat) (year i : Z) : Z :=
  match n with
  | O => 0
  | S n' =>
      (if (i =? 2) && time_is_leap (year + 1970) then 29 else month_length_at (i - 1))
      + month_days_before n' year (i + 1)
  end.

Definition time_make_exact (timeinfo : tm_t) : Z :=
  tm_year timeinfo * (TIME_SECS_PER_DAY * 365)
  + TIME_SECS_PER_DAY * leap_years_before (Z.to_nat (tm_year timeinfo)) 0
  + TIME_SECS_PER_DAY
    * month_days_before (Z.to_nat (tm_mon timeinfo - 1)) (tm_year timeinfo) 1
  + (tm_mday timeinfo - 1) * TIME_SECS_PER_DAY
  + tm_hour timeinfo * TIME_SECS_PER_HOUR
  + tm_min timeinfo * TIME_SECS_PER_MINUTE
  + tm_sec timeinfo.

(** Days from 1970-01-01 to the first day of the year [1970 + n]. *)
Fixpoint days_before_year (n : nat) : Z :=
  match n with
  | O => 0
  | S n' => days_before_year n' + year_days (Z.of_nat n')
  end.

(* ===================================================================== *)
(** * The clock *)
(* ===================================================================== *)

(** Modelled from the spec: [enum enTimeStatus] of [TimeLib.h], in the order
    the spec gives ([NOT_SET = 0], [NEEDS_SYNC], [OK]). *)
Inductive enTimeStatus : Type :=
  | E_TIME_NOT_SET
  | E_TIME_NEEDS_SYNC
  | E_TIME_OK.

(** A call made inside the module; the clock keeps them as a ghost history
    (most recent first) so that properties can speak of past calls. *)
Inductive call : Type :=
  | CallSet (now : Z)        (* time_set(now) was entered                   *)
  | CallGet                  (* time_get() was entered                      *)
  | CallProvider (ret : Z).  (* time_provider_callback() returned [ret]     *)

(** The file-scope variables of [TimeLib.c].  [time_provider_callback] (a
    [time_callback_t], a pointer to a function) holds the address of the
    provider function, 0 for the null pointer.  [history] is ghost state, no
    variable of the C module. *)
Record clock : Type := {
  sys_time               : Z;             (* time_t        *)
  sync_interval          : Z;             (* time_t        *)
  sync_next              : Z;             (* time_t        *)
  last_update            : Z;             (* unsigned long *)
  enTimeCurrentStatus    : enTimeStatus;
  time_provider_callback : Z;
  history                : list call
}.

(** The initialisers of the file-scope variables. *)
Definition clock_init : clock :=
  {| sys_time := 0; sync_interval := 86400; sync_next := 0; last_update := 0;
     enTimeCurrentStatus := E_TIME_NOT_SET; time_provider_callback := 0;
     history := [] |}.

(** Modelled from the spec: [tick_get()] of the board's tick header (an
    [unsigned long] counter of ticks that may wrap) and the provider behind
    [time_provider_callback] (it returns a Unix time, or 0 when it has
    none).  Both live outside the module; a [world] holds what they answer
    during one call of the public API: the value [tick_get()] reads (a call
    is short against a tick, so every read inside one call sees the same
    value) and the value the provider returns if the call invokes it. *)
Record world : Type := {
  tick_get        : Z;
  provider_return : Z
}.

Definition in_range (bits x : Z) : Prop := 0 <= x < 2 ^ bits.

Definition world_ok (p : platform) (w : world) : Prop :=
  in_range (ulong_bits p) (tick_get w) /\ in_range (time_bits p) (provider_return w).

(** Every variable holds a value of its C type. *)
Definition clock_ok (p : platform) (s : clock) : Prop :=
  in_range (time_bits p) (sys_time s) /\
  in_range (time_bits p) (sync_interval s) /\
  in_range (time_bits p) (sync_next s) /\
  in_range (ulong_bits p) (last_update s).

Definition set_sys_time (v : Z) (s : clock) : clock :=
  {| sys_time := v; sync_interval := sync_interval s; sync_next := sync_next s;
     last_update := last_update s; enTimeCurrentStatus := enTimeCurrentStatus s;
     time_provider_callback := time_provider_callback s; history := history s |}.

Definition set_sync_interval (v : Z) (s : clock) : clock :=
  {| sys_time := sys_time s; sync_interval := v; sync_next := sync_next s;
     last_update := last_update s; enTimeCurrentStatus := enTimeCurrentStatus s;
     time_provider_callback := time_provider_callback s; history := history s |}.

Definition set_sync_next (v : Z) (s : clock) : clock :=
  {| sys_time := sys_time s; sync_interval := sync_interval s; sync_next := v;
     last_update := last_update s; enTimeCurrentStatus := enTimeCurrentStatus s;
     time_provider_callback := time_provider_callback s; history := history s |}.

Definition set_last_update (v : Z) (s : clock) : clock :=
  {| sys_time := sys_time s; sync_interval := sync_interval s; sync_next := sync_next s;
     last_update := v; enTimeCurrentStatus := enTimeCurrentStatus s;
     time_provider_callback := time_provider_callback s; history := history s |}.

Definition set_status (v : enTimeStatus) (s : clock) : clock :=
  {| sys_time := sys_time s; sync_interval := sync_interval s; sync_next := sync_next s;
     last_update := last_update s; enTimeCurrentStatus := v;
     time_provider_callback := time_provider_callback s; history := history s |}.

Definition set_callback (v : Z) (s : clock) : clock :=
  {| sys_time := sys_time s; sync_interval := sync_interval s; sync_next := sync_next s;
     last_update := last_update s; enTimeCurrentStatus := enTimeCurrentStatus s;
     time_provider_callback := v; history := history s |}.

Definition record_call (c : call) (s : clock) : clock :=
  {| sys_time := sys_time s; sync_interval := sync_interval s; sync_next := sync_next s;
     last_update := last_update s; enTimeCurrentStatus := enTimeCurrentStatus s;
     time_provider_callback := time_provider_callback s; history := c :: history s |}.

(** [void time_set(time_t now)] *)
Definition time_set (p : platform) (w : world) (now : Z) (s : clock) : clock :=
  let s := record_call (CallSet now) s in
  let s := set_sys_time now s in
  let s := set_sync_next (wrapT p (now + sync_interval s)) s in
  let s := set_status E_TIME_OK s in
  set_last_update (tick_get w) s.

(** The first half of [time_get]: [if (sync_next <= sys_time) { ... }]. *)
Definition time_sync (p : platform) (w : world) (s : clock) : clock :=
  if sync_next s <=? sys_time s then
    if negb (time_provider_callback s =? 0) then
      let now := provider_return w in
      let s := record_call (CallProvider now) s in
      if negb (now =? 0) then time_set p w now s
      else
        let s := set_sync_next (wrapT p (sys_time s + sync_interval s)) s in
        set_status
          (match enTimeCurrentStatus s with
           | E_TIME_NOT_SET => E_TIME_NOT_SET
           | _ => E_TIME_NEEDS_SYNC
           end) s
    else s
  else s.

(** The second half of [time_get]:
    [while (tick_get() - last_update >= TICK_SECOND) { sys_time++; last_update += TICK_SECOND; }]
    with the subtraction in [unsigned long].  [fuel] bounds the rounds. *)
Fixpoint time_tick_loop (p : platform) (fuel : nat) (w : world) (s : clock) : clock :=
  match fuel with
  | O => s
  | S fuel' =>
      if TICK_SECOND p <=? wrapUL p (tick_get w - last_update s)
      then
        let s := set_sys_time (wrapT p (sys_time s + 1)) s in
        let s := set_last_update (wrapUL p (last_update s + TICK_SECOND p)) s in
        time_tick_loop p fuel' w s
      else s
  end.

(** Ticks since the last whole second was counted, as the loop guard reads
    them. *)
Definition elapsed_ticks (p : platform) (w : world) (s : clock) : Z :=
  wrapUL p (tick_get w - last_update s).

(** The loop with enough fuel: a round takes [TICK_SECOND] ticks off
    [elapsed_ticks], so there are at most [elapsed_ticks / TICK_SECOND]
    rounds; [time_tick_exits] shows that the guard is false at the end. *)
Definition time_tick (p : platform) (w : world) (s : clock) : clock :=
  time_tick_loop p (Z.to_nat (elapsed_ticks p w s / TICK_SECOND p)) w s.

(** [time_t time_get()]: the value returned and the state left. *)
Definition time_get (p : platform) (w : world) (s : clock) : Z * clock :=
  let s := record_call CallGet s in
  let s := time_sync p w s in
  let s := time_tick p w s in
  (sys_time s, s).

(** [void time_set_provider(time_callback_t callback, time_t timespan)] *)
Definition time_set_provider (p : platform) (w : world) (callback timespan : Z)
    (s : clock) : clock :=
  if callback =? 0 then s
  else
    let s := set_callback callback s in
    let s := set_sync_interval
               (if timespan =? 0 then TIME_SECS_PER_DAY else timespan) s in
    let s := set_sync_next (sys_time s) s in
    snd (time_get p w s).

(** ** Runs of the module *)

(** A call of the public API that changes the module's state. *)
Inductive event : Type :=
  | EvSet (now : Z)
  | EvGet
  | EvSetProvider (callback timespan : Z).

Definition event_ok (p : platform) (e : event) : Prop :=
  match e with
  | EvSet now => in_range (time_bits p) now
  | EvGet => True
  | EvSetProvider callback timespan => 0 <= callback /\ in_range (time_bits p) timespan
  end.

Definition step (p : platform) (w : world) (e : event) (s : clock) : clock :=
  match e with
  | EvSet now => time_set p w now s
  | EvGet => snd (time_get p w s)
  | EvSetProvider callback timespan => time_set_provider p w callback timespan s
  end.

(** The states the module can be in: the initial one and those a call leaves
    from a reachable one, whatever the tick counter and the provider answer. *)
Inductive reachable (p : platform) : clock -> Prop :=
  | reachable_init : reachable p clock_init
  | reachable_step : forall w e s,
      reachable p s -> world_ok p w -> event_ok p e ->
      reachable p (step p w e s).

(** A sequence of [time_get] calls, one per world, and the values returned. *)
Fixpoint time_gets (p : platform) (ws : list world) (s : clock) : list Z * clock :=
  match ws with
  | [] => ([], s)
  | w :: ws' =>
      let '(t, s1) := time_get p w s in
      let '(ts, s2) := time_gets p ws' s1 in
      (t :: ts, s2)
  end.

(** ** Vocabulary of the properties *)

(** The guards of the sync step: a sync is attempted when it is due and a
    provider is registered; it succeeds, and calls [time_set], when the
    provider then returns a nonzero time. *)
Definition sync_attempted (s : clock) : bool :=
  (sync_next s <=? sys_time s) && negb (time_provider_callback s =? 0).

Definition sync_succeeds (w : world) (s : clock) : bool :=
  sync_attempted s && negb (provider_return w =? 0).

(** The clock [k] whole seconds later: what [k] rounds of the tick loop
    leave. *)
Definition tick_advance (p : platform) (k : Z) (s : clock) : clock :=
  set_last_update (wrapUL p (last_update s + TICK_SECOND p * k))
    (set_sys_time (wrapT p (sys_time s + k)) s).

(** The status law, read off a history from its most recent call backwards:
    [time_set] has been called, and the provider has not returned 0 since
    the most recent of these calls. *)
Fixpoint status_law (h : list call) : bool :=
  match h with
  | [] => false
  | CallSet _ :: _ => true
  | CallProvider ret :: h' => negb (ret =? 0) && status_law h'
  | CallGet :: h' => status_law h'
  end.

(** The status law as the specification words it: the most recent call of
    [time_set] moreover had a nonzero argument. *)
Fixpoint status_law_nonzero_set (h : list call) : bool :=
  match h with
  | [] => false
  | CallSet now :: _ => negb (now =? 0)
  | CallProvider ret :: h' => negb (ret =? 0) && status_law_nonzero_set h'
  | CallGet :: h' => status_law_nonzero_set h'
  end.

(** A sequence of [time_get] calls from [s] during which no sync succeeds
    (so [time_set] is not called) and the seconds counter stays within
    [time_t]. *)
Fixpoint gets_steady (p : platform) (ws : list world) (s : clock) : Prop :=
  match ws with
  | [] => True
  | w :: ws' =>
      sync_succeeds w s = false
      /\ sys_time s + elapsed_ticks p w s / TICK_SECOND p < 2 ^ time_bits p
      /\ gets_steady p ws' (snd (time_get p w s))
  end.

(** A broken-down time that names a second of the calendar: the clock
    fields in their ranges, a month from 1 to 12 and a day that the month
    has in that year, by the month lengths [time_break] itself uses.
    [tm_wday] is left out: [time_make] does not read it. *)
Definition tm_valid (t : tm_t) : Prop :=
  0 <= tm_sec t <= 59
  /\ 0 <= tm_min t <= 59
  /\ 0 <= tm_hour t <= 23
  /\ 0 <= tm_year t
  /\ 1 <= tm_mon t <= 12
  /\ 1 <= tm_mday t <= break_month_length (tm_year t) (tm_mon t - 1).

(** Whether a history holds a call of [time_set]. *)
Definition set_called (h : list call) : bool :=
  existsb (fun c => match c with CallSet _ => true | _ => false end) h.

(** The calls one [time_get] makes after it is entered, most recent first:
    none unless a sync is attempted, then the provider and, when the
    provider returned a time, [time_set]. *)
Definition sync_calls (w : world) (s : clock) : list call :=
  if sync_attempted s then
    if provider_return w =? 0 then [CallProvider (provider_return w)]
    else [CallSet (provider_return w); CallProvider (provider_return w)]
  else [].

(* ===================================================================== *)
(** * Facts on machine integers *)
(* ===================================================================== *)

Lemma pow2_pos (bits : Z) : 0 <= bits -> 0 < 2 ^ bits.
Proof. intros; apply Z.pow_pos_nonneg; lia. Qed.

Lemma pow2_mono (a b : Z) : 0 <= a <= b -> 2 ^ a <= 2 ^ b.
Proof. intros; apply Z.pow_le_mono_r; lia. Qed.

Lemma wrap_range (bits x : Z) : 0 <= bits -> in_range bits (wrap bits x).
Proof.
  intros Hb; unfold in_range, wrap.
  apply Z.mod_pos_bound, pow2_pos, Hb.
Qed.

Lemma wrap_small (bits x : Z) : in_range bits x -> wrap bits x = x.
Proof. unfold in_range, wrap; intros; apply Z.mod_small; assumption. Qed.

Lemma wrap_add_l (bits a b : Z) : wrap bits (wrap bits a + b) = wrap bits (a + b).
Proof. unfold wrap; apply Zplus_mod_idemp_l. Qed.

Lemma wrap_add_r (bits a b : Z) : wrap bits (a + wrap bits b) = wrap bits (a + b).
Proof. unfold wrap; apply Zplus_mod_idemp_r. Qed.

Lemma wrap_mul (bits a b : Z) :
  wrap bits (wrap bits a * wrap bits b) = wrap bits (a * b).
Proof. unfold wrap; symmetry; apply Zmult_mod. Qed.

Lemma wrap_sub_r (bits a b : Z) : wrap bits (a - wrap bits b) = wrap bits (a - b).
Proof. unfold wrap; apply Zminus_mod_idemp_r. Qed.

Lemma wrap_sub_l (bits a b : Z) : wrap bits (wrap bits a - b) = wrap bits (a - b).
Proof. unfold wrap; apply Zminus_mod_idemp_l. Qed.

Lemma in_range_mono (a b x : Z) : 0 <= a <= b -> in_range a x -> in_range b x.
Proof.
  unfold in_range; intros Hab Hx.
  pose proof (pow2_mono a b Hab); lia.
Qed.

Lemma in_range_16 (bits x : Z) : 16 <= bits -> 0 <= x < 65536 -> in_range bits x.
Proof.
  intros Hb Hx; apply (in_range_mono 16 bits); [lia|].
  unfold in_range; change (2 ^ 16) with 65536; lia.
Qed.

Lemma in_range_32 (bits x : Z) : 32 <= bits -> 0 <= x < 4294967296 -> in_range bits x.
Proof.
  intros Hb Hx; apply (in_range_mono 32 bits); [lia|].
  unfold in_range; change (2 ^ 32) with 4294967296; lia.
Qed.

(** Range side conditions on concrete platforms, worlds and states. *)
Ltac ranges :=
  unfold world_ok, clock_ok, event_ok, in_range; cbn;
  unfold in_range; cbn; lia.

Lemma avr8_ok : platform_ok avr8.
Proof. constructor; cbn; lia. Qed.

(* ===================================================================== *)
(** * Calendar arithmetic: the 32-bit accumulator of [time_make] *)
(* ===================================================================== *)

Lemma wrap32_add_l (a b : Z) : wrap32 (wrap32 a + b) = wrap32 (a + b).
Proof. apply wrap_add_l. Qed.

Lemma wrap32_add_r (a b : Z) : wrap32 (a + wrap32 b) = wrap32 (a + b).
Proof. apply wrap_add_r. Qed.

Lemma make_year_loop_exact (n : nat) : forall i a,
  make_year_loop n i (wrap32 a)
  = wrap32 (a + TIME_SECS_PER_DAY * leap_years_before n i).
Proof.
  induction n as [|n IH]; intros i a; cbn [make_year_loop leap_years_before].
  - f_equal; lia.
  - destruct (time_is_leap (i + 1970)).
    + rewrite wrap32_add_l, IH; f_equal; lia.
    + rewrite IH; f_equal; lia.
Qed.

Lemma make_month_loop_exact (n : nat) : forall year i a,
  make_month_loop n year i (wrap32 a)
  = wrap32 (a + TIME_SECS_PER_DAY * month_days_before n year i).
Proof.
  induction n as [|n IH]; intros year i a;
    cbn [make_month_loop month_days_before].
  - f_equal; lia.
  - destruct ((i =? 2) && time_is_leap (year + 1970));
      rewrite wrap32_add_l, IH; f_equal; lia.
Qed.

Lemma wrap32_add_mul (a x c : Z) :
  wrap32 (wrap32 a + wrap32 x * wrap32 c) = wrap32 (a + x * c).
Proof.
  unfold wrap32.
  rewrite wrap_add_l, <- wrap_add_r, wrap_mul, wrap_add_r; reflexivity.
Qed.

Lemma time_make_wraps (timeinfo : tm_t) :
  time_make timeinfo = wrap32 (time_make_exact timeinfo).
Proof.
  unfold time_make, time_make_exact.
  rewrite make_year_loop_exact, make_month_loop_exact.
  rewrite (wrap32_add_mul _ (tm_mday timeinfo - 1)).
  rewrite (wrap32_add_mul _ (tm_hour timeinfo)).
  rewrite (wrap32_add_mul _ (tm_min timeinfo)).
  rewrite wrap32_add_l, wrap32_add_r; reflexivity.
Qed.

(* ===================================================================== *)
(** * Calendar arithmetic: the loops of [time_break] *)
(* ===================================================================== *)

Lemma year_days_bounds (year : Z) : 365 <= year_days year <= 366.
Proof. unfold year_days; destruct (time_is_leap _); lia. Qed.

Lemma days_before_year_lower (n : nat) : 365 * Z.of_nat n <= days_before_year n.
Proof.
  induction n as [|n IH]; [cbn; lia|].
  cbn [days_before_year].
  pose proof (year_days_bounds (Z.of_nat n)); lia.
Qed.

Lemma leap_years_before_snoc (n : nat) : forall i,
  leap_years_before (S n) i
  = leap_years_before n i
    + (if time_is_leap (i + Z.of_nat n + 1970) then 1 else 0).
Proof.
  induction n as [|n IH]; intros i.
  - cbn [leap_years_before]. replace (i + Z.of_nat 0 + 1970) with (i + 1970) by lia.
    lia.
  - change (leap_years_before (S (S n)) i)
      with ((if time_is_leap (i + 1970) then 1 else 0)
            + leap_years_before (S n) (i + 1)).
    rewrite IH. cbn [leap_years_before].
    replace (i + 1 + Z.of_nat n + 1970) with (i + Z.of_nat (S n) + 1970) by lia.
    lia.
Qed.

(** The days [time_break] counts before a year are those [time_make] adds
    for it: 365 a year and one more for each leap year. *)
Lemma days_before_year_closed (n : nat) :
  days_before_year n = 365 * Z.of_nat n + leap_years_before n 0.
Proof.
  induction n as [|n IH]; [reflexivity|].
  rewrite leap_years_before_snoc.
  cbn [days_before_year]; rewrite IH; unfold year_days.
  replace (0 + Z.of_nat n + 1970) with (1970 + Z.of_nat n) by lia.
  destruct (time_is_leap _); lia.
Qed.

(** [time_make] and [time_break] agree on the length of a month: the term
    [time_make] adds for the 1-based month [i] is the [monthLength] that
    [time_break] uses for the 0-based month [i - 1]. *)
Lemma make_month_term (year i : Z) :
  (if (i =? 2) && time_is_leap (year + 1970) then 29 else month_length_at (i - 1))
  = break_month_length year (i - 1).
Proof.
  unfold break_month_length; rewrite (Z.add_comm 1970 year).
  destruct (Z.eqb_spec i 2) as [->|Hi].
  - cbn; destruct (time_is_leap _); reflexivity.
  - destruct (Z.eqb_spec (i - 1) 1); [lia | reflexivity].
Qed.

Lemma month_days_before_S (n : nat) (year i : Z) :
  month_days_before (S n) year i
  = break_month_length year (i - 1) + month_days_before n year (i + 1).
Proof. cbn [month_days_before]; rewrite make_month_term; reflexivity. Qed.

(** Replaces each read of [month_length] at a known index by its value. *)
Ltac eval_month_length :=
  repeat match goal with
         | |- context [month_length_at ?k] =>
             let v := eval vm_compute in (month_length_at k) in
             progress change (month_length_at k) with v
         end.

Lemma break_month_length_bounds (year month : Z) :
  0 <= month < 12 -> 28 <= break_month_length year month <= 31.
Proof.
  intros H.
  assert (Hc : month = 0 \/ month = 1 \/ month = 2 \/ month = 3 \/ month = 4
               \/ month = 5 \/ month = 6 \/ month = 7 \/ month = 8
               \/ month = 9 \/ month = 10 \/ month = 11) by lia.
  unfold break_month_length.
  repeat (destruct Hc as [->|Hc]); try subst month;
    cbn [Z.eqb Pos.eqb]; eval_month_length;
    try destruct (time_is_leap _); lia.
Qed.

(** The twelve months of a year hold its days. *)
Lemma month_days_before_year (year : Z) :
  month_days_before 12 year 1 = year_days year.
Proof.
  unfold year_days; rewrite (Z.add_comm 1970 year).
  cbn [month_days_before Z.add Pos.add Pos.succ Z.eqb Pos.eqb andb].
  eval_month_length.
  destruct (time_is_leap _); reflexivity.
Qed.

(** The month loop started at the 0-based month [month] with [xTime] days
    left: the months it passes hold the days it takes off. *)
Lemma break_month_loop_spec (year : Z) (fuel : nat) : forall month xTime,
  0 <= month <= 12 ->
  0 <= xTime < 2 ^ 32 ->
  13 <= month + Z.of_nat fuel ->
  let r := break_month_loop fuel year month xTime in
  month <= fst r <= 12
  /\ 0 <= snd r
  /\ (fst r < 12 -> snd r < break_month_length year (fst r))
  /\ month_days_before (Z.to_nat (fst r - month)) year (month + 1) + snd r = xTime.
Proof.
  induction fuel as [|fuel IH]; intros month xTime Hm Hx Hfuel; cbv zeta.
  - lia.
  - cbn [break_month_loop].
    destruct (Z.ltb_spec month 12) as [Hlt|Hge].
    + pose proof (break_month_length_bounds year month ltac:(lia)) as Hlen.
      destruct (Z.leb_spec (break_month_length year month) xTime) as [Hle|Hgt].
      * assert (Hw8 : wrap8 (month + 1) = month + 1).
        { apply wrap_small; unfold in_range; change (2 ^ 8) with 256; lia. }
        assert (Hw32 : wrap32 (xTime - break_month_length year month)
                       = xTime - break_month_length year month).
        { apply wrap_small; unfold in_range; lia. }
        rewrite Hw8, Hw32.
        specialize (IH (month + 1) (xTime - break_month_length year month)
                      ltac:(lia) ltac:(lia) ltac:(lia)).
        cbv zeta in IH.
        destruct IH as (Hr & Hs & Hs' & Hsum).
        repeat split; try lia; try assumption.
        replace (Z.to_nat (fst (break_month_loop fuel year (month + 1)
                                  (xTime - break_month_length year month)) - month))
          with (S (Z.to_nat (fst (break_month_loop fuel year (month + 1)
                                  (xTime - break_month_length year month))
                             - (month + 1)))) by lia.
        rewrite month_days_before_S.
        replace (month + 1 - 1) with month by lia. lia.
      * cbn [fst snd]. replace (month - month) with 0 by lia. cbn. lia.
    + cbn [fst snd]. replace (month - month) with 0 by lia. cbn. lia.
Qed.

(** For a day of the year, the month loop of [time_break] stops inside the
    year, at a day of the month it stops in. *)
Lemma break_month_loop_in_year (year doy : Z) :
  0 <= doy < year_days year ->
  let r := break_month_loop 13 year 0 doy in
  0 <= fst r < 12
  /\ 0 <= snd r < break_month_length year (fst r)
  /\ month_days_before (Z.to_nat (fst r)) year 1 + snd r = doy.
Proof.
  intros Hd; cbv zeta.
  pose proof (year_days_bounds year) as Hy.
  pose proof (break_month_loop_spec year 13 0 doy ltac:(lia) ltac:(lia) ltac:(lia))
    as Hspec.
  cbv zeta in Hspec. destruct Hspec as (Hr & Hs & Hs' & Hsum).
  replace (fst (break_month_loop 13 year 0 doy) - 0)
    with (fst (break_month_loop 13 year 0 doy)) in Hsum by lia.
  change (0 + 1) with 1 in Hsum.
  assert (Hlt : fst (break_month_loop 13 year 0 doy) < 12).
  { destruct (Z.eq_dec (fst (break_month_loop 13 year 0 doy)) 12) as [E|E]; [|lia].
    rewrite E in Hsum. change (Z.to_nat 12) with 12%nat in Hsum.
    rewrite month_days_before_year in Hsum. lia. }
  repeat split; first [lia | apply Hs', Hlt].
Qed.

Lemma days_before_year_mono (a b : nat) :
  (a <= b)%nat -> days_before_year a <= days_before_year b.
Proof.
  induction 1 as [|b Hab IH]; [lia|].
  cbn [days_before_year]; pose proof (year_days_bounds (Z.of_nat b)); lia.
Qed.

(** A day lies in one year only. *)
Lemma year_bracket_unique (a b : nat) (d : Z) :
  days_before_year a <= d < days_before_year (S a) ->
  days_before_year b <= d < days_before_year (S b) ->
  a = b.
Proof.
  intros Ha Hb.
  destruct (Nat.lt_trichotomy a b) as [Hlt|[Heq|Hgt]]; [|assumption|].
  - pose proof (days_before_year_mono (S a) b Hlt); lia.
  - pose proof (days_before_year_mono (S b) a Hgt); lia.
Qed.

Lemma time_break_wrap32 (p : platform) (ts : Z) :
  time_break p ts = time_break p (ts mod 2 ^ 32).
Proof. unfold time_break, wrap32, wrap; rewrite Zmod_mod; reflexivity. Qed.

Section Calendar.
Context (p : platform) (Hp : platform_ok p).

Lemma wrapUL_small (x : Z) : 0 <= x < 65536 -> wrapUL p x = x.
Proof.
  intros Hx; apply wrap_small, in_range_16; [|assumption].
  pose proof (ulong_ge_32 p Hp); lia.
Qed.

Lemma wrapUI_small (x : Z) : 0 <= x < 65536 -> wrapUI p x = x.
Proof.
  intros Hx; apply wrap_small, in_range_16; [|assumption].
  apply (uint_ge_16 p Hp).
Qed.

(** The year loop started at the year [1970 + n] with the days before it:
    it stops at the year that holds day [xTime], with the days up to the
    end of that year in [days]. *)
Lemma break_year_loop_spec (fuel : nat) : forall (n : nat) (xTime : Z),
  0 <= xTime < 49711 ->
  days_before_year n <= xTime ->
  (137 <= n + fuel)%nat ->
  exists m : nat,
    (n <= m)%nat
    /\ break_year_loop p fuel xTime (Z.of_nat n) (days_before_year n)
       = (Z.of_nat m, days_before_year (S m))
    /\ days_before_year m <= xTime < days_before_year (S m).
Proof.
  induction fuel as [|fuel IH]; intros n xTime Hx Hn Hfuel.
  - pose proof (days_before_year_lower n); lia.
  - pose proof (days_before_year_lower n) as Hlow.
    pose proof (days_before_year_lower (S n)) as HlowS.
    pose proof (year_days_bounds (Z.of_nat n)) as Hyd.
    cbn [break_year_loop].
    change (days_before_year n + year_days (Z.of_nat n))
      with (days_before_year (S n)).
    assert (Hsmall : 0 <= days_before_year (S n) < 65536)
      by (cbn [days_before_year] in *; lia).
    rewrite (wrapUL_small _ Hsmall), (wrapUI_small _ Hsmall).
    destruct (Z.leb_spec (days_before_year (S n)) xTime) as [Hle|Hgt].
    + assert (Hw : wrap8 (Z.of_nat n + 1) = Z.of_nat (S n)).
      { unfold wrap8; rewrite wrap_small; [lia|].
        unfold in_range; change (2 ^ 8) with 256; lia. }
      rewrite Hw.
      destruct (IH (S n) xTime Hx Hle) as (m & Hm & Heq & Hbr); [lia|].
      exists m; repeat split; try assumption; lia.
    + exists n; repeat split; try reflexivity; lia.
Qed.

(** The year loop of [time_break] leaves through its guard, so the fuel
    never runs out. *)
Lemma break_year_loop_exits (xTime : Z) :
  0 <= xTime < 49711 ->
  (wrapUI p (snd (break_year_loop p 256 xTime 0 0)) <=? xTime) = false.
Proof.
  intros Hx.
  destruct (break_year_loop_spec 256 0 xTime Hx) as (m & _ & Heq & Hbr);
    [cbn; lia | lia |].
  change (Z.of_nat 0) with 0 in Heq; change (days_before_year 0) with 0 in Heq.
  rewrite Heq; cbn [snd].
  pose proof (days_before_year_lower m).
  pose proof (year_days_bounds (Z.of_nat m)).
  rewrite wrapUI_small by (cbn [days_before_year]; lia).
  apply Z.leb_gt; lia.
Qed.

(** [time_break] on a 32-bit timestamp, loop by loop: the year [m] that
    holds the day [ts / 86400], then the month and the day in it. *)
Lemma time_break_spec (ts : Z) :
  0 <= ts < 2 ^ 32 ->
  exists (m : nat) (month rem : Z),
    time_break p ts
    = {| tm_sec := ts mod 60; tm_min := ts / 60 mod 60;
         tm_hour := ts / 60 / 60 mod 24;
         tm_wday := (ts / 60 / 60 / 24 + 4) mod 7 + 1;
         tm_mday := rem + 1; tm_mon := month + 1; tm_year := Z.of_nat m |}
    /\ (m <= 136)%nat
    /\ days_before_year m <= ts / 60 / 60 / 24 < days_before_year (S m)
    /\ break_month_loop 13 (Z.of_nat m) 0 (ts / 60 / 60 / 24 - days_before_year m)
       = (month, rem)
    /\ 0 <= month < 12
    /\ 0 <= rem < break_month_length (Z.of_nat m) month
    /\ days_before_year m + month_days_before (Z.to_nat month) (Z.of_nat m) 1 + rem
       = ts / 60 / 60 / 24.
Proof.
  intros Hts. change (2 ^ 32) with 4294967296 in Hts.
  assert (Hd : 0 <= ts / 60 / 60 / 24 < 49711).
  { rewrite !Z.div_div by lia. cbn [Z.mul Pos.mul].
    split; [apply Z.div_pos; lia | apply Z.div_lt_upper_bound; lia]. }
  destruct (break_year_loop_spec 256 0 _ Hd) as (m & _ & Heq & Hbr);
    [cbn; lia | lia |].
  change (Z.of_nat 0) with 0 in Heq; change (days_before_year 0) with 0 in Heq.
  pose proof (days_before_year_lower m) as Hlow.
  pose proof (year_days_bounds (Z.of_nat m)) as Hyd.
  pose proof Hbr as Hbr'. cbn [days_before_year] in Hbr'.
  pose proof (break_month_loop_in_year (Z.of_nat m)
                (ts / 60 / 60 / 24 - days_before_year m) ltac:(lia)) as Hmon.
  cbv zeta in Hmon.
  destruct (break_month_loop 13 (Z.of_nat m) 0
              (ts / 60 / 60 / 24 - days_before_year m)) as [month rem] eqn:Hloop.
  cbn [fst snd] in Hmon. destruct Hmon as (Hmo & Hrem & Hsum).
  exists m, month, rem.
  split; [|repeat split; solve [lia | exact Hloop]].
  unfold time_break.
  assert (Hw : wrap32 ts = ts)
    by (apply wrap_small; unfold in_range; change (2 ^ 32) with 4294967296; lia).
  rewrite Hw, Heq.
  replace (wrapUL p (days_before_year (S m) - year_days (Z.of_nat m)))
    with (days_before_year m)
    by (cbn [days_before_year];
        replace (days_before_year m + year_days (Z.of_nat m) - year_days (Z.of_nat m))
          with (days_before_year m) by lia;
        symmetry; apply wrapUL_small; lia).
  replace (wrap32 (ts / 60 / 60 / 24 - days_before_year m))
    with (ts / 60 / 60 / 24 - days_before_year m)
    by (symmetry; apply wrap_small; unfold in_range;
        change (2 ^ 32) with 4294967296; lia).
  rewrite Hloop.
  replace (wrap32 (ts / 60 / 60 / 24 + 4)) with (ts / 60 / 60 / 24 + 4)
    by (symmetry; apply wrap_small; unfold in_range;
        change (2 ^ 32) with 4294967296; lia).
  reflexivity.
Qed.

(** [time_make] undoes [time_break] on every 32-bit timestamp. *)
Lemma time_make_break (ts : Z) :
  0 <= ts < 2 ^ 32 -> time_make (time_break p ts) = ts.
Proof.
  intros Hts.
  destruct (time_break_spec ts Hts)
    as (m & month & rem & -> & Hm & _ & _ & Hmo & Hrem & Hsum).
  rewrite time_make_wraps.
  assert (Hexact :
    time_make_exact
      {| tm_sec := ts mod 60; tm_min := ts / 60 mod 60;
         tm_hour := ts / 60 / 60 mod 24;
         tm_wday := (ts / 60 / 60 / 24 + 4) mod 7 + 1;
         tm_mday := rem + 1; tm_mon := month + 1; tm_year := Z.of_nat m |} = ts).
  { unfold time_make_exact; cbn [tm_sec tm_min tm_hour tm_mday tm_mon tm_year].
    rewrite Nat2Z.id. replace (month + 1 - 1) with month by lia.
    rewrite days_before_year_closed in Hsum.
    unfold TIME_SECS_PER_DAY, TIME_SECS_PER_HOUR, TIME_SECS_PER_MINUTE.
    pose proof (Z.div_mod ts 60 ltac:(lia)) as E1.
    pose proof (Z.div_mod (ts / 60) 60 ltac:(lia)) as E2.
    pose proof (Z.div_mod (ts / 60 / 60) 24 ltac:(lia)) as E3.
    lia. }
  rewrite Hexact. apply wrap_small; exact Hts.
Qed.

(** The seven fields [time_break] fills are in the ranges of the data
    model; all are below 256. *)
Lemma time_break_fields_range (ts : Z) :
  let t := time_break p ts in
  0 <= tm_sec t <= 59 /\ 0 <= tm_min t <= 59 /\ 0 <= tm_hour t <= 23
  /\ 1 <= tm_wday t <= 7 /\ 1 <= tm_mday t <= 31 /\ 1 <= tm_mon t <= 12
  /\ 0 <= tm_year t <= 136.
Proof.
  cbv zeta. rewrite time_break_wrap32.
  pose proof (Z.mod_pos_bound ts (2 ^ 32) ltac:(lia)) as Hts.
  destruct (time_break_spec _ Hts)
    as (m & month & rem & -> & Hm & _ & _ & Hmo & Hrem & _).
  cbn [tm_sec tm_min tm_hour tm_wday tm_mday tm_mon tm_year].
  pose proof (break_month_length_bounds (Z.of_nat m) month Hmo).
  pose proof (Z.mod_pos_bound (ts mod 2 ^ 32) 60 ltac:(lia)).
  pose proof (Z.mod_pos_bound (ts mod 2 ^ 32 / 60) 60 ltac:(lia)).
  pose proof (Z.mod_pos_bound (ts mod 2 ^ 32 / 60 / 60) 24 ltac:(lia)).
  pose proof (Z.mod_pos_bound (ts mod 2 ^ 32 / 60 / 60 / 24 + 4) 7 ltac:(lia)).
  lia.
Qed.
End Calendar.

(** [time_break] does not depend on the platform's integer widths. *)
Lemma time_break_platform (p q : platform) (ts : Z) :
  platform_ok p -> platform_ok q -> time_break p ts = time_break q ts.
Proof.
  intros Hp Hq.
  rewrite (time_break_wrap32 p), (time_break_wrap32 q).
  pose proof (Z.mod_pos_bound ts (2 ^ 32) ltac:(lia)) as Hts.
  destruct (time_break_spec p Hp _ Hts)
    as (m & month & rem & -> & _ & Hbr & Hloop & _).
  destruct (time_break_spec q Hq _ Hts)
    as (m' & month' & rem' & -> & _ & Hbr' & Hloop' & _).
  pose proof (year_bracket_unique m m' _ Hbr Hbr') as <-.
  rewrite Hloop in Hloop'; injection Hloop' as <- <-.
  reflexivity.
Qed.

(* ===================================================================== *)
(** * The tick accumulator *)
(* ===================================================================== *)

(** The loop touches the seconds counter and the tick mark only. *)
Lemma time_tick_loop_frame (p : platform) (w : world) (fuel : nat) : forall s,
  let s' := time_tick_loop p fuel w s in
  sync_interval s' = sync_interval s
  /\ sync_next s' = sync_next s
  /\ enTimeCurrentStatus s' = enTimeCurrentStatus s
  /\ time_provider_callback s' = time_provider_callback s
  /\ history s' = history s.
Proof.
  induction fuel as [|fuel IH]; intros s; cbv zeta; cbn [time_tick_loop].
  - repeat split.
  - destruct (TICK_SECOND p <=? wrapUL p (tick_get w - last_update s)).
    + specialize (IH (set_last_update (wrapUL p (last_update s + TICK_SECOND p))
                        (set_sys_time (wrapT p (sys_time s + 1)) s))).
      cbv zeta in IH. cbn [set_last_update set_sys_time last_update] in *.
      exact IH.
    + repeat split.
Qed.

(** The loop reads the seconds counter and the tick mark only. *)
Lemma time_tick_loop_ext (p : platform) (w : world) (fuel : nat) : forall a b,
  sys_time a = sys_time b -> last_update a = last_update b ->
  sys_time (time_tick_loop p fuel w a) = sys_time (time_tick_loop p fuel w b)
  /\ last_update (time_tick_loop p fuel w a)
     = last_update (time_tick_loop p fuel w b).
Proof.
  induction fuel as [|fuel IH]; intros a b Hs Hl; cbn [time_tick_loop].
  - split; assumption.
  - rewrite Hl.
    destruct (TICK_SECOND p <=? wrapUL p (tick_get w - last_update b)).
    + apply IH; cbn; congruence.
    + split; assumption.
Qed.

Lemma time_tick_loop_S (p : platform) (w : world) (fuel : nat) (s : clock) :
  time_tick_loop p (S fuel) w s
  = if TICK_SECOND p <=? elapsed_ticks p w s
    then time_tick_loop p fuel w
           (set_last_update (wrapUL p (last_update s + TICK_SECOND p))
              (set_sys_time (wrapT p (sys_time s + 1)) s))
    else s.
Proof. reflexivity. Qed.

Section Accumulator.
Context (p : platform) (Hp : platform_ok p).

Lemma time_bits_nonneg : 0 <= time_bits p.
Proof. pose proof (time_ge_32 p Hp); lia. Qed.

Lemma ulong_bits_nonneg : 0 <= ulong_bits p.
Proof. pose proof (ulong_ge_32 p Hp); lia. Qed.

Lemma elapsed_ticks_range (w : world) (s : clock) :
  0 <= elapsed_ticks p w s < 2 ^ ulong_bits p.
Proof. apply (wrap_range (ulong_bits p)), ulong_bits_nonneg. Qed.

(** One round of the loop takes [TICK_SECOND] ticks off the elapsed
    count. *)
Lemma elapsed_ticks_round (w : world) (s : clock) :
  TICK_SECOND p <= elapsed_ticks p w s ->
  wrapUL p (tick_get w - wrapUL p (last_update s + TICK_SECOND p))
  = elapsed_ticks p w s - TICK_SECOND p.
Proof.
  intros Hle. pose proof (elapsed_ticks_range w s) as Hr.
  pose proof (TICK_SECOND_pos p Hp) as Ht.
  unfold elapsed_ticks, wrapUL in *.
  rewrite wrap_sub_r.
  replace (tick_get w - (last_update s + TICK_SECOND p))
    with (tick_get w - last_update s - TICK_SECOND p) by lia.
  rewrite <- wrap_sub_l.
  apply wrap_small; unfold in_range; lia.
Qed.

(** With fuel for [elapsed_ticks / TICK_SECOND] rounds the loop counts
    exactly that many seconds. *)
Lemma time_tick_loop_closed (w : world) (fuel : nat) : forall s,
  in_range (time_bits p) (sys_time s) ->
  in_range (ulong_bits p) (last_update s) ->
  elapsed_ticks p w s / TICK_SECOND p <= Z.of_nat fuel ->
  time_tick_loop p fuel w s
  = tick_advance p (elapsed_ticks p w s / TICK_SECOND p) s.
Proof.
  pose proof (TICK_SECOND_pos p Hp) as Ht.
  induction fuel as [|fuel IH]; intros s Hst Hlu Hfuel;
    pose proof (elapsed_ticks_range w s) as Hr;
    [cbn [time_tick_loop] | rewrite time_tick_loop_S].
  - assert (Hk : elapsed_ticks p w s / TICK_SECOND p = 0).
    { pose proof (Z.div_pos (elapsed_ticks p w s) (TICK_SECOND p)); lia. }
    rewrite Hk. unfold tick_advance.
    rewrite Z.mul_0_r, !Z.add_0_r.
    unfold wrapT, wrapUL; rewrite !wrap_small by assumption.
    destruct s; reflexivity.
  - destruct (Z.leb_spec (TICK_SECOND p) (elapsed_ticks p w s)) as [Hle|Hgt].
    + set (s1 := set_last_update (wrapUL p (last_update s + TICK_SECOND p))
                   (set_sys_time (wrapT p (sys_time s + 1)) s)).
      assert (He1 : elapsed_ticks p w s1 = elapsed_ticks p w s - TICK_SECOND p).
      { unfold elapsed_ticks at 1; subst s1; cbn [set_last_update last_update].
        apply elapsed_ticks_round, Hle. }
      assert (Hk1 : elapsed_ticks p w s1 / TICK_SECOND p
                    = elapsed_ticks p w s / TICK_SECOND p - 1).
      { rewrite He1.
        replace (elapsed_ticks p w s - TICK_SECOND p)
          with (elapsed_ticks p w s + (-1) * TICK_SECOND p) by lia.
        rewrite Z.div_add by lia. lia. }
      rewrite IH.
      * rewrite Hk1. subst s1.
        unfold tick_advance, set_last_update, set_sys_time.
        cbn [last_update sys_time sync_interval sync_next
             enTimeCurrentStatus time_provider_callback history].
        f_equal.
        -- unfold wrapT; rewrite wrap_add_l; f_equal; lia.
        -- unfold wrapUL; rewrite wrap_add_l; f_equal; lia.
      * subst s1; cbn. apply wrap_range, time_bits_nonneg.
      * subst s1; cbn. apply wrap_range, ulong_bits_nonneg.
      * rewrite Hk1. lia.
    + rewrite Z.div_small by lia. unfold tick_advance.
      rewrite Z.mul_0_r, !Z.add_0_r.
      unfold wrapT, wrapUL; rewrite !wrap_small by assumption.
      destruct s; reflexivity.
Qed.

Lemma time_tick_closed (w : world) (s : clock) :
  in_range (time_bits p) (sys_time s) ->
  in_range (ulong_bits p) (last_update s) ->
  time_tick p w s = tick_advance p (elapsed_ticks p w s / TICK_SECOND p) s.
Proof.
  intros Hst Hlu. unfold time_tick.
  apply time_tick_loop_closed; try assumption.
  pose proof (elapsed_ticks_range w s).
  pose proof (TICK_SECOND_pos p Hp).
  rewrite Z2Nat.id; [lia | apply Z.div_pos; lia].
Qed.

(** What the tick mark leaves behind is the remainder of the elapsed
    ticks: less than a second, and none is lost. *)
Lemma elapsed_ticks_advance (w : world) (s : clock) :
  elapsed_ticks p w
    (tick_advance p (elapsed_ticks p w s / TICK_SECOND p) s)
  = elapsed_ticks p w s mod TICK_SECOND p.
Proof.
  pose proof (TICK_SECOND_pos p Hp) as Ht.
  pose proof (elapsed_ticks_range w s) as Hr.
  pose proof (Z.mod_pos_bound (elapsed_ticks p w s) (TICK_SECOND p) Ht) as Hm.
  pose proof (Z.div_mod (elapsed_ticks p w s) (TICK_SECOND p) ltac:(lia)) as Hdm.
  unfold elapsed_ticks at 1, tick_advance.
  cbn [set_last_update last_update].
  unfold wrapUL. rewrite wrap_sub_r.
  replace (tick_get w
           - (last_update s + TICK_SECOND p * (elapsed_ticks p w s / TICK_SECOND p)))
    with (tick_get w - last_update s
          - TICK_SECOND p * (elapsed_ticks p w s / TICK_SECOND p)) by lia.
  rewrite <- wrap_sub_l.
  fold (wrapUL p (tick_get w - last_update s)); fold (elapsed_ticks p w s).
  pose proof (Z.mod_le (elapsed_ticks p w s) (TICK_SECOND p) ltac:(lia) Ht).
  rewrite wrap_small by (unfold in_range; lia). lia.
Qed.

(** The tick loop of [time_get] leaves through its guard: the fuel
    [time_tick] gives it never runs out. *)
Lemma time_tick_exits (w : world) (s : clock) :
  in_range (time_bits p) (sys_time s) ->
  in_range (ulong_bits p) (last_update s) ->
  (TICK_SECOND p <=? elapsed_ticks p w (time_tick p w s)) = false.
Proof.
  intros Hst Hlu.
  rewrite time_tick_closed by assumption.
  rewrite elapsed_ticks_advance.
  pose proof (Z.mod_pos_bound (elapsed_ticks p w s) (TICK_SECOND p)
                (TICK_SECOND_pos p Hp)).
  apply Z.leb_gt; lia.
Qed.
End Accumulator.

(* ===================================================================== *)
(** * The sync step and the states of the module *)
(* ===================================================================== *)

Lemma time_sync_idle (p : platform) (w : world) (s : clock) :
  sync_attempted s = false -> time_sync p w s = s.
Proof.
  unfold sync_attempted, time_sync; intros H.
  destruct (sync_next s <=? sys_time s); [|reflexivity].
  destruct (time_provider_callback s =? 0); [reflexivity|discriminate].
Qed.

Lemma time_sync_success (p : platform) (w : world) (s : clock) :
  sync_succeeds w s = true ->
  time_sync p w s
  = time_set p w (provider_return w)
      (record_call (CallProvider (provider_return w)) s).
Proof.
  unfold sync_succeeds, sync_attempted, time_sync; intros H.
  destruct (sync_next s <=? sys_time s); [|discriminate].
  destruct (time_provider_callback s =? 0); [discriminate|].
  destruct (provider_return w =? 0); [discriminate|reflexivity].
Qed.

Lemma time_sync_failure (p : platform) (w : world) (s : clock) :
  sync_attempted s = true -> provider_return w = 0 ->
  time_sync p w s
  = set_status
      (match enTimeCurrentStatus s with
       | E_TIME_NOT_SET => E_TIME_NOT_SET
       | _ => E_TIME_NEEDS_SYNC
       end)
      (set_sync_next (wrapT p (sys_time s + sync_interval s))
         (record_call (CallProvider 0) s)).
Proof.
  unfold sync_attempted, time_sync; intros H H0.
  destruct (sync_next s <=? sys_time s); [|discriminate].
  destruct (time_provider_callback s =? 0); [discriminate|].
  rewrite H0; reflexivity.
Qed.

(** A sync that does not succeed leaves the seconds counter and the tick
    mark alone. *)
Lemma time_sync_quiet (p : platform) (w : world) (s : clock) :
  sync_succeeds w s = false ->
  sys_time (time_sync p w s) = sys_time s
  /\ last_update (time_sync p w s) = last_update s
  /\ sync_interval (time_sync p w s) = sync_interval s
  /\ time_provider_callback (time_sync p w s) = time_provider_callback s.
Proof.
  unfold sync_succeeds; intros H.
  destruct (sync_attempted s) eqn:Ha.
  - destruct (Z.eqb_spec (provider_return w) 0) as [H0|]; [|discriminate].
    rewrite (time_sync_failure p w s Ha H0); repeat split.
  - rewrite (time_sync_idle p w s Ha); repeat split.
Qed.

Section States.
Context (p : platform) (Hp : platform_ok p).

Lemma time_set_ok (w : world) (now : Z) (s : clock) :
  world_ok p w -> in_range (time_bits p) now -> clock_ok p s ->
  clock_ok p (time_set p w now s).
Proof.
  intros [Hw _] Hnow (_ & Hsi & _ & _).
  unfold clock_ok, time_set; cbn.
  repeat split; try apply Hnow; try apply Hsi; try apply Hw;
    apply (wrap_range (time_bits p)), (time_bits_nonneg p Hp).
Qed.

Lemma time_sync_ok (w : world) (s : clock) :
  world_ok p w -> clock_ok p s -> clock_ok p (time_sync p w s).
Proof.
  intros Hw Hs.
  destruct (sync_attempted s) eqn:Ha.
  - destruct (Z.eqb_spec (provider_return w) 0) as [H0|Hn0].
    + rewrite (time_sync_failure p w s Ha H0).
      destruct Hs as (Hst & Hsi & _ & Hlu).
      unfold clock_ok; cbn.
      repeat split; try apply Hst; try apply Hsi; try apply Hlu;
        apply (wrap_range (time_bits p)), (time_bits_nonneg p Hp).
    + rewrite time_sync_success.
      * apply time_set_ok; [assumption | apply Hw | exact Hs].
      * unfold sync_succeeds; rewrite Ha.
        destruct (Z.eqb_spec (provider_return w) 0); [contradiction|reflexivity].
  - rewrite (time_sync_idle p w s Ha); assumption.
Qed.

Lemma time_tick_ok (w : world) (s : clock) :
  clock_ok p s -> clock_ok p (time_tick p w s).
Proof.
  intros (Hst & Hsi & Hsn & Hlu).
  rewrite (time_tick_closed p Hp) by assumption.
  unfold clock_ok, tick_advance; cbn.
  repeat split; try apply Hsi; try apply Hsn;
    first [ apply (wrap_range (time_bits p)), (time_bits_nonneg p Hp)
          | apply (wrap_range (ulong_bits p)), (ulong_bits_nonneg p Hp) ].
Qed.

Lemma time_get_ok (w : world) (s : clock) :
  world_ok p w -> clock_ok p s -> clock_ok p (snd (time_get p w s)).
Proof.
  intros Hw Hs. unfold time_get; cbn [snd].
  apply time_tick_ok, time_sync_ok; [assumption|exact Hs].
Qed.

Lemma time_set_provider_ok (w : world) (callback timespan : Z) (s : clock) :
  world_ok p w -> in_range (time_bits p) timespan -> clock_ok p s ->
  clock_ok p (time_set_provider p w callback timespan s).
Proof.
  intros Hw Hspan Hs. unfold time_set_provider.
  destruct (callback =? 0); [assumption|].
  apply time_get_ok; [assumption|].
  destruct Hs as (Hst & Hsi & Hsn & Hlu).
  unfold clock_ok; cbn [set_sync_next set_sync_interval set_callback sys_time
                          sync_interval sync_next last_update].
  split; [exact Hst | split; [| split; [exact Hst | exact Hlu]]].
  destruct (timespan =? 0); [|exact Hspan].
  apply (in_range_32 (time_bits p) TIME_SECS_PER_DAY (time_ge_32 p Hp)).
  unfold TIME_SECS_PER_DAY; lia.
Qed.

Lemma clock_init_ok : clock_ok p clock_init.
Proof.
  pose proof (time_ge_32 p Hp). pose proof (ulong_ge_32 p Hp).
  unfold clock_ok, clock_init; cbn.
  repeat split; try lia;
    first [ apply (in_range_32 (time_bits p)); [assumption | lia]
          | apply (in_range_32 (ulong_bits p)); [assumption | lia] ].
Qed.

(** In every reachable state the variables hold values of their types. *)
Lemma reachable_ok (s : clock) : reachable p s -> clock_ok p s.
Proof.
  induction 1 as [|w e s Hr IH Hw He]; [apply clock_init_ok|].
  destruct e as [now| |callback timespan]; cbn [step event_ok] in *.
  - apply time_set_ok; assumption.
  - apply time_get_ok; assumption.
  - apply time_set_provider_ok; [assumption | apply He | assumption].
Qed.
End States.

Lemma time_tick_ext (p : platform) (w : world) (a b : clock) :
  sys_time a = sys_time b -> last_update a = last_update b ->
  sys_time (time_tick p w a) = sys_time (time_tick p w b)
  /\ last_update (time_tick p w a) = last_update (time_tick p w b).
Proof.
  intros Hs Hl. unfold time_tick, elapsed_ticks. rewrite Hl.
  apply time_tick_loop_ext; assumption.
Qed.

Lemma time_tick_frame (p : platform) (w : world) (s : clock) :
  enTimeCurrentStatus (time_tick p w s) = enTimeCurrentStatus s
  /\ history (time_tick p w s) = history s.
Proof.
  pose proof (time_tick_loop_frame p w
                (Z.to_nat (elapsed_ticks p w s / TICK_SECOND p)) s) as H.
  cbv zeta in H. unfold time_tick. tauto.
Qed.

(** The status law is an invariant of the sync step ... *)
Lemma time_sync_status_law (p : platform) (w : world) (s : clock) :
  (enTimeCurrentStatus s = E_TIME_OK <-> status_law (history s) = true) ->
  (enTimeCurrentStatus (time_sync p w s) = E_TIME_OK
   <-> status_law (history (time_sync p w s)) = true).
Proof.
  intros Hinv.
  destruct (sync_attempted s) eqn:Ha.
  - destruct (Z.eqb_spec (provider_return w) 0) as [H0|Hn0].
    + rewrite (time_sync_failure p w s Ha H0); cbn.
      destruct (enTimeCurrentStatus s); split; discriminate.
    + rewrite time_sync_success.
      * cbn; split; reflexivity.
      * unfold sync_succeeds; rewrite Ha.
        destruct (Z.eqb_spec (provider_return w) 0); [contradiction|reflexivity].
  - rewrite (time_sync_idle p w s Ha); assumption.
Qed.

(** ... and of [time_get]. *)
Lemma time_get_status_law (p : platform) (w : world) (s : clock) :
  (enTimeCurrentStatus s = E_TIME_OK <-> status_law (history s) = true) ->
  (enTimeCurrentStatus (snd (time_get p w s)) = E_TIME_OK
   <-> status_law (history (snd (time_get p w s))) = true).
Proof.
  intros Hinv. unfold time_get; cbn [snd].
  destruct (time_tick_frame p w (time_sync p w (record_call CallGet s)))
    as [-> ->].
  apply time_sync_status_law. exact Hinv.
Qed.

(** A [time_get] whose sync does not succeed returns the counter advanced by
    the whole seconds in the elapsed ticks. *)
Lemma time_get_quiet (p : platform) (w : world) (s : clock) :
  platform_ok p -> world_ok p w -> clock_ok p s ->
  sync_succeeds w s = false ->
  fst (time_get p w s)
  = wrapT p (sys_time s + elapsed_ticks p w s / TICK_SECOND p)
  /\ sys_time (snd (time_get p w s)) = fst (time_get p w s)
  /\ elapsed_ticks p w (snd (time_get p w s))
     = elapsed_ticks p w s mod TICK_SECOND p.
Proof.
  intros Hp Hw Hs Hq.
  pose proof (time_sync_ok p Hp w _ Hw
                (Hs : clock_ok p (record_call CallGet s))) as Hok.
  destruct (time_sync_quiet p w (record_call CallGet s) Hq)
    as (Hst & Hlu & _).
  cbn [record_call sys_time last_update] in Hst, Hlu.
  assert (He : elapsed_ticks p w (time_sync p w (record_call CallGet s))
               = elapsed_ticks p w s)
    by (unfold elapsed_ticks; rewrite Hlu; reflexivity).
  destruct Hok as (Hr1 & _ & _ & Hr2).
  unfold time_get; cbn [fst snd].
  rewrite (time_tick_closed p Hp) by assumption.
  rewrite (elapsed_ticks_advance p Hp), He.
  unfold tick_advance; cbn [set_last_update set_sys_time sys_time].
  rewrite Hst. repeat split.
Qed.

(** Steady calls of [time_get] never return less than the counter they
    start from. *)
Lemma time_gets_lower_bound (p : platform) (Hp : platform_ok p)
    (ws : list world) : forall s,
  clock_ok p s -> Forall (world_ok p) ws -> gets_steady p ws s ->
  Forall (fun t => sys_time s <= t) (fst (time_gets p ws s)).
Proof.
  induction ws as [|w ws IH]; intros s Hs Hws Hsteady; cbn [time_gets].
  - constructor.
  - inversion Hws as [|? ? Hw Hws']; subst.
    destruct Hsteady as (Hq & Hfit & Hrest).
    destruct (time_get_quiet p w s Hp Hw Hs Hq) as (Hret & Hst & _).
    pose proof (time_get_ok p Hp w s Hw Hs) as Hs1.
    specialize (IH _ Hs1 Hws' Hrest).
    destruct (time_get p w s) as [t s1] eqn:Hget; cbn [fst snd] in *.
    destruct (time_gets p ws s1) as [ts s2]; cbn [fst] in *.
    assert (Hle : sys_time s <= t).
    { rewrite Hret. unfold wrapT. rewrite wrap_small.
      - pose proof (elapsed_ticks_range p Hp w s).
        pose proof (TICK_SECOND_pos p Hp).
        pose proof (Z.div_pos (elapsed_ticks p w s) (TICK_SECOND p)); lia.
      - destruct Hs as (Hr & _). unfold in_range in *.
        pose proof (elapsed_ticks_range p Hp w s).
        pose proof (TICK_SECOND_pos p Hp).
        pose proof (Z.div_pos (elapsed_ticks p w s) (TICK_SECOND p)); lia. }
    constructor; [exact Hle|].
    rewrite Hst in IH.
    eapply Forall_impl; [|exact IH]. cbn; intros; lia.
Qed.

(* ===================================================================== *)
(** * Properties of the calendar conversions *)
(* ===================================================================== *)

(** C1.  Round trip: on every platform, for every timestamp [ts] with
    [0 <= ts < 4102444800], [time_make] applied to the broken-down time
    that [time_break] produces for [ts] returns [ts]. *)
Theorem time_round_trip (p : platform) (ts : Z) :
  platform_ok p ->
  0 <= ts < 4102444800 ->
  time_make (time_break p ts) = ts.
Proof.
  intros Hp Hts. apply (time_make_break p Hp).
  change (2 ^ 32) with 4294967296; lia.
Qed.

Lemma time_round_trip_witness :
  platform_ok avr8
  /\ 0 <= 1614556800 < 4102444800
  /\ time_make (time_break avr8 1614556800) = 1614556800.
Proof.
  split; [constructor; cbn; lia|].
  split; [lia|].
  apply (time_round_trip avr8 1614556800); [constructor; cbn; lia | lia].
Defined.

(** C8, as the specification states it, fails: [time_break 68256000] does
    not give day 29 of month 2 of year offset 2 (the round trip does return
    68256000). *)
Lemma time_break_68256000_counterexample :
  ~ (tm_mday (time_break avr8 68256000) = 29
     /\ tm_mon (time_break avr8 68256000) = 2
     /\ tm_year (time_break avr8 68256000) = 2
     /\ time_make (time_break avr8 68256000) = 68256000).
Proof. vm_compute. intros (H & _). discriminate H. Qed.

(** C8, amended.  On every platform [time_break 68256000] gives day 1 of
    month 3 of year offset 2 (1972-03-01, a Wednesday), and [time_make]
    returns 68256000 for it.  The leap day 1972-02-29 is the day before,
    [time_break 68169600], which round-trips as well. *)
Theorem time_break_68256000 (p : platform) :
  platform_ok p ->
  time_break p 68256000
  = {| tm_sec := 0; tm_min := 0; tm_hour := 0; tm_wday := 4;
       tm_mday := 1; tm_mon := 3; tm_year := 2 |}
  /\ time_make (time_break p 68256000) = 68256000
  /\ time_break p 68169600
     = {| tm_sec := 0; tm_min := 0; tm_hour := 0; tm_wday := 3;
          tm_mday := 29; tm_mon := 2; tm_year := 2 |}
  /\ time_make (time_break p 68169600) = 68169600.
Proof.
  intros Hp.
  rewrite !(time_break_platform p avr8 _ Hp avr8_ok).
  vm_compute. repeat split.
Qed.

Lemma time_break_68256000_witness :
  platform_ok host64
  /\ tm_mday (time_break host64 68256000) = 1
  /\ tm_mon (time_break host64 68256000) = 3.
Proof.
  split; [constructor; cbn; lia|].
  destruct (time_break_68256000 host64) as (H & _); [constructor; cbn; lia|].
  rewrite H; split; reflexivity.
Defined.

(** C10.  Both conversions work modulo 2^32: [time_break] sees only the low
    32 bits of its input, and [time_make] returns the exact sum of seconds
    reduced modulo 2^32, a value below 2^32. *)
Theorem calendar_modulo_2_32 (p : platform) (ts : Z) (timeinfo : tm_t) :
  time_break p ts = time_break p (ts mod 2 ^ 32)
  /\ time_make timeinfo = time_make_exact timeinfo mod 2 ^ 32
  /\ 0 <= time_make timeinfo < 2 ^ 32.
Proof.
  split; [|split].
  - apply time_break_wrap32.
  - apply time_make_wraps.
  - rewrite time_make_wraps; apply (wrap_range 32); lia.
Qed.

(** A date past the 32-bit range: 2107-01-01 is 50038 days, 4323283200
    seconds, after the epoch, and [time_make] returns that number less
    2^32. *)
Example time_make_2107_wraps :
  time_make {| tm_sec := 0; tm_min := 0; tm_hour := 0; tm_wday := 0;
               tm_mday := 1; tm_mon := 1; tm_year := 137 |}
  = 4323283200 - 2 ^ 32.
Proof. vm_compute; reflexivity. Qed.

(* ===================================================================== *)
(** * Properties of the clock *)
(* ===================================================================== *)

(** C2, as the specification states it, fails: [time_set 0] on the initial
    state leaves the status [E_TIME_OK], though the most recent call of
    [time_set] had the argument 0. *)
Lemma status_law_set_zero_counterexample :
  let s := step avr8 {| tick_get := 0; provider_return := 0 |} (EvSet 0)
             clock_init in
  reachable avr8 s
  /\ ~ (enTimeCurrentStatus s = E_TIME_OK
        <-> status_law_nonzero_set (history s) = true).
Proof.
  cbv zeta. split.
  - apply reachable_step; [apply reachable_init | | ];
      ranges.
  - cbn. intros [H _]. specialize (H eq_refl). discriminate H.
Qed.

(** C2, amended.  In every reachable state the status is [E_TIME_OK] if and
    only if [time_set] has been called, directly or by a successful sync and
    with whatever argument, and no due provider has returned 0 since the
    most recent of these calls. *)
Theorem status_law_reachable (p : platform) (s : clock) :
  reachable p s ->
  (enTimeCurrentStatus s = E_TIME_OK <-> status_law (history s) = true).
Proof.
  induction 1 as [|w e s Hr IH Hw He].
  - cbn; split; discriminate.
  - destruct e as [now| |callback timespan]; cbn [step].
    + cbn; split; reflexivity.
    + apply time_get_status_law, IH.
    + unfold time_set_provider.
      destruct (callback =? 0); [exact IH|].
      apply time_get_status_law. exact IH.
Qed.

Lemma status_law_reachable_witness :
  let s := step avr8 {| tick_get := 0; provider_return := 0 |} (EvSet 0)
             clock_init in
  reachable avr8 s
  /\ (enTimeCurrentStatus s = E_TIME_OK <-> status_law (history s) = true).
Proof.
  cbv zeta.
  assert (Hr : reachable avr8
                 (step avr8 {| tick_get := 0; provider_return := 0 |} (EvSet 0)
                    clock_init)).
  { apply reachable_step; [apply reachable_init | | ]; ranges. }
  split; [exact Hr|].
  apply (status_law_reachable avr8 _ Hr).
Defined.

(** C4.  When a sync is due, a provider is registered and it returns 0, the
    sync step keeps [E_TIME_NOT_SET], turns [E_TIME_OK] into
    [E_TIME_NEEDS_SYNC] and keeps [E_TIME_NEEDS_SYNC]; it does not touch the
    seconds counter, re-arms the next sync one interval ahead, and
    [time_get] returns what the tick loop alone makes of the counter. *)
Theorem sync_failure_keeps_clock (p : platform) (w : world) (s : clock) :
  sync_next s <= sys_time s ->
  time_provider_callback s <> 0 ->
  provider_return w = 0 ->
  let s' := time_sync p w s in
  (enTimeCurrentStatus s = E_TIME_NOT_SET ->
   enTimeCurrentStatus s' = E_TIME_NOT_SET)
  /\ (enTimeCurrentStatus s = E_TIME_OK ->
      enTimeCurrentStatus s' = E_TIME_NEEDS_SYNC)
  /\ (enTimeCurrentStatus s = E_TIME_NEEDS_SYNC ->
      enTimeCurrentStatus s' = E_TIME_NEEDS_SYNC)
  /\ sys_time s' = sys_time s
  /\ last_update s' = last_update s
  /\ sync_next s' = wrapT p (sys_time s + sync_interval s)
  /\ fst (time_get p w s) = sys_time (time_tick p w s).
Proof.
  intros Hdue Hcb H0; cbv zeta.
  assert (Ha : sync_attempted s = true).
  { unfold sync_attempted.
    destruct (Z.leb_spec (sync_next s) (sys_time s)); [|lia].
    destruct (Z.eqb_spec (time_provider_callback s) 0); [contradiction|reflexivity]. }
  rewrite (time_sync_failure p w s Ha H0); cbn.
  repeat split; try (intros ->; reflexivity).
  apply time_tick_ext;
    rewrite (time_sync_failure p w (record_call CallGet s) Ha H0); reflexivity.
Qed.

Lemma sync_failure_keeps_clock_witness :
  let s := set_callback 1 (time_set avr8 {| tick_get := 0; provider_return := 0 |}
                             0 (set_sync_interval 0 clock_init)) in
  let w := {| tick_get := 2500; provider_return := 0 |} in
  enTimeCurrentStatus s = E_TIME_OK
  /\ enTimeCurrentStatus (time_sync avr8 w s) = E_TIME_NEEDS_SYNC
  /\ fst (time_get avr8 w s) = 2.
Proof.
  cbv zeta.
  destruct (sync_failure_keeps_clock avr8
              {| tick_get := 2500; provider_return := 0 |}
              (set_callback 1
                 (time_set avr8 {| tick_get := 0; provider_return := 0 |} 0
                    (set_sync_interval 0 clock_init))))
    as (_ & Hok & _ & _ & _ & _ & Hget);
    [cbn; lia | cbn; lia | reflexivity |].
  split; [reflexivity|].
  split; [apply Hok; reflexivity|].
  rewrite Hget; reflexivity.
Defined.

(** C5.  Right after a sync attempt, whether the provider returned a time
    (and [time_set] took it) or 0, [sync_next - sys_time == sync_interval]
    holds in the arithmetic of [time_t]; it holds over the integers as well
    when [sys_time + sync_interval] fits [time_t]. *)
Theorem sync_rearms (p : platform) (w : world) (s : clock) :
  platform_ok p -> clock_ok p s -> world_ok p w ->
  sync_attempted s = true ->
  let s' := time_sync p w s in
  wrapT p (sync_next s' - sys_time s') = sync_interval s'
  /\ (sys_time s' + sync_interval s' < 2 ^ time_bits p ->
      sync_next s' - sys_time s' = sync_interval s').
Proof.
  intros Hp (Hst & Hsi & _ & _) (_ & Hret) Ha; cbv zeta.
  assert (Hgen : forall t, in_range (time_bits p) t ->
            wrapT p (wrapT p (t + sync_interval s) - t) = sync_interval s
            /\ (t + sync_interval s < 2 ^ time_bits p ->
                wrapT p (t + sync_interval s) - t = sync_interval s)).
  { intros t Ht. split.
    - unfold wrapT. rewrite wrap_sub_l.
      replace (t + sync_interval s - t) with (sync_interval s) by lia.
      apply wrap_small, Hsi.
    - intros Hfit. unfold wrapT. rewrite wrap_small; [lia|].
      unfold in_range in *; lia. }
  destruct (Z.eqb_spec (provider_return w) 0) as [H0|Hn0].
  - rewrite (time_sync_failure p w s Ha H0); cbn. apply Hgen, Hst.
  - rewrite time_sync_success.
    + cbn. apply Hgen, Hret.
    + unfold sync_succeeds; rewrite Ha.
      destruct (Z.eqb_spec (provider_return w) 0); [contradiction|reflexivity].
Qed.

Lemma sync_rearms_witness :
  let s := set_callback 1 (set_sync_interval 100 clock_init) in
  let w := {| tick_get := 0; provider_return := 1000 |} in
  sync_next (time_sync avr8 w s) - sys_time (time_sync avr8 w s) = 100.
Proof.
  cbv zeta.
  destruct (sync_rearms avr8 {| tick_get := 0; provider_return := 1000 |}
              (set_callback 1 (set_sync_interval 100 clock_init)))
    as (_ & Hexact).
  - constructor; cbn; lia.
  - ranges.
  - ranges.
  - reflexivity.
  - apply Hexact. cbn; lia.
Defined.

(** C9.  Registering a null callback changes nothing: the state after the
    call, the ghost history included (so no [time_get] was driven), is the
    state before it, whatever the interval. *)
Theorem null_provider_ignored (p : platform) (w : world) (timespan : Z)
    (s : clock) :
  time_set_provider p w 0 timespan s = s.
Proof. reflexivity. Qed.

(** C7.  Wrap transparency.  Let [d] ticks, fewer than one full wrap of the
    tick counter, have elapsed since the tick mark, so that the counter
    reads [last_update + d] modulo its width (it has wrapped through 0 when
    that sum passes the top).  Then the unsigned subtraction of the loop
    guard yields [d]; the accumulator adds [d / TICK_SECOND] seconds to the
    counter (in [time_t]) and carries [d mod TICK_SECOND] ticks over; and
    [time_get] returns that counter when its sync does not succeed. *)
Theorem tick_wrap_transparent (p : platform) (w : world) (s : clock) (d : Z) :
  platform_ok p -> clock_ok p s -> world_ok p w ->
  0 <= d < 2 ^ ulong_bits p ->
  tick_get w = wrapUL p (last_update s + d) ->
  elapsed_ticks p w s = d
  /\ sys_time (time_tick p w s) = wrapT p (sys_time s + d / TICK_SECOND p)
  /\ (sys_time s + d / TICK_SECOND p < 2 ^ time_bits p ->
      sys_time (time_tick p w s) = sys_time s + d / TICK_SECOND p)
  /\ elapsed_ticks p w (time_tick p w s) = d mod TICK_SECOND p
  /\ (sync_succeeds w s = false ->
      fst (time_get p w s) = wrapT p (sys_time s + d / TICK_SECOND p)).
Proof.
  intros Hp Hs Hw Hd Htick.
  assert (He : elapsed_ticks p w s = d).
  { unfold elapsed_ticks, wrapUL in *. rewrite Htick, wrap_sub_l.
    replace (last_update s + d - last_update s) with d by lia.
    apply wrap_small, Hd. }
  pose proof Hs as (Hst & _ & _ & Hlu).
  pose proof (TICK_SECOND_pos p Hp) as Ht.
  split; [exact He|].
  rewrite (time_tick_closed p Hp) by assumption.
  rewrite (elapsed_ticks_advance p Hp), He.
  unfold tick_advance; cbn [set_last_update set_sys_time sys_time].
  repeat split.
  - intros Hfit. apply wrap_small. unfold in_range in *.
    pose proof (Z.div_pos d (TICK_SECOND p)); lia.
  - intros Hq. destruct (time_get_quiet p w s Hp Hw Hs Hq) as (-> & _).
    rewrite He; reflexivity.
Qed.

Lemma tick_wrap_transparent_witness :
  let s := set_last_update 4294966796 clock_init in
  let w := {| tick_get := 2000; provider_return := 0 |} in
  tick_get w < last_update s
  /\ elapsed_ticks avr8 w s = 2500
  /\ sys_time (time_tick avr8 w s) = 2
  /\ elapsed_ticks avr8 w (time_tick avr8 w s) = 500.
Proof.
  cbv zeta.
  destruct (tick_wrap_transparent avr8
              {| tick_get := 2000; provider_return := 0 |}
              (set_last_update 4294966796 clock_init) 2500)
    as (He & _ & Hst & Hrest & _).
  - constructor; cbn; lia.
  - ranges.
  - ranges.
  - cbn; lia.
  - reflexivity.
  - split; [cbn; lia|].
    split; [exact He|].
    split; [rewrite Hst; [reflexivity | cbn; lia] | rewrite Hrest; reflexivity].
Defined.

(** C3, as the specification states it, fails.  On a board with a 32-bit
    tick counter at 1000 ticks per second, [time_get] at tick 999 returns 0
    and carries 999 ticks over; no provider is registered, the counter then
    advances by 4294967 * 1000 ticks (fewer than 2^32) and reads 703; the
    next [time_get] returns 0 again, not 4294967. *)
Lemma drift_free_counterexample :
  let w1 := {| tick_get := 999; provider_return := 0 |} in
  let w2 := {| tick_get := 703; provider_return := 0 |} in
  let N := 4294967 in
  let s1 := snd (time_get avr8 w1 clock_init) in
  N * TICK_SECOND avr8 < 2 ^ ulong_bits avr8
  /\ tick_get w2 = wrapUL avr8 (tick_get w1 + N * TICK_SECOND avr8)
  /\ time_provider_callback s1 = 0
  /\ sync_succeeds w2 s1 = false
  /\ fst (time_get avr8 w1 clock_init) = 0
  /\ fst (time_get avr8 w2 s1) = 0
  /\ fst (time_get avr8 w2 s1) <> fst (time_get avr8 w1 clock_init) + N.
Proof. vm_compute. repeat split; discriminate. Qed.

(** C3, amended.  Take two consecutive calls of [time_get] between which the
    tick counter advances by [N * TICK_SECOND] ticks, the second call's sync
    not succeeding, and let the ticks carried over by the first call plus
    these [N * TICK_SECOND] stay below one full wrap of the tick counter.
    Then the second call returns the first call's value plus [N] (in
    [time_t]; exactly so when that sum fits [time_t]), and it carries over
    the ticks the first call carried over. *)
Theorem drift_free (p : platform) (w1 w2 : world) (s : clock) (N : Z) :
  platform_ok p -> clock_ok p s -> world_ok p w1 -> world_ok p w2 ->
  0 <= N ->
  tick_get w2 = wrapUL p (tick_get w1 + N * TICK_SECOND p) ->
  sync_succeeds w2 (snd (time_get p w1 s)) = false ->
  elapsed_ticks p w1 (snd (time_get p w1 s)) + N * TICK_SECOND p
  < 2 ^ ulong_bits p ->
  fst (time_get p w2 (snd (time_get p w1 s)))
  = wrapT p (fst (time_get p w1 s) + N)
  /\ (fst (time_get p w1 s) + N < 2 ^ time_bits p ->
      fst (time_get p w2 (snd (time_get p w1 s))) = fst (time_get p w1 s) + N)
  /\ elapsed_ticks p w2 (snd (time_get p w2 (snd (time_get p w1 s))))
     = elapsed_ticks p w1 (snd (time_get p w1 s)).
Proof.
  intros Hp Hs Hw1 Hw2 HN Htick Hq Hfit.
  pose proof (TICK_SECOND_pos p Hp) as Ht.
  pose proof (time_get_ok p Hp w1 s Hw1 Hs) as Hs1.
  set (s1 := snd (time_get p w1 s)) in *.
  change (fst (time_get p w1 s)) with (sys_time s1).
  (* the first call left less than a second of ticks *)
  assert (Hres : 0 <= elapsed_ticks p w1 s1 < TICK_SECOND p).
  { pose proof (elapsed_ticks_range p Hp w1 s1).
    assert (Hex : (TICK_SECOND p <=? elapsed_ticks p w1 s1) = false).
    { subst s1. unfold time_get; cbn [snd].
      pose proof (time_sync_ok p Hp w1 _ Hw1
                    (Hs : clock_ok p (record_call CallGet s)))
        as (Hr1 & _ & _ & Hr2).
      apply (time_tick_exits p Hp); assumption. }
    apply Z.leb_gt in Hex. lia. }
  (* what the second call sees *)
  assert (He2 : elapsed_ticks p w2 s1
                = elapsed_ticks p w1 s1 + N * TICK_SECOND p).
  { unfold elapsed_ticks at 1. unfold wrapUL in *.
    rewrite Htick, wrap_sub_l.
    replace (tick_get w1 + N * TICK_SECOND p - last_update s1)
      with (tick_get w1 - last_update s1 + N * TICK_SECOND p) by lia.
    rewrite <- wrap_add_l.
    fold (wrapUL p (tick_get w1 - last_update s1)).
    fold (elapsed_ticks p w1 s1).
    apply wrap_small. unfold in_range. nia. }
  destruct (time_get_quiet p w2 s1 Hp Hw2 Hs1 Hq) as (Hret & _ & Hcarry).
  assert (Hdiv : elapsed_ticks p w2 s1 / TICK_SECOND p = N).
  { rewrite He2, Z.div_add by lia. rewrite Z.div_small by lia. lia. }
  assert (Hmod : elapsed_ticks p w2 s1 mod TICK_SECOND p
                 = elapsed_ticks p w1 s1).
  { rewrite He2, Z.mod_add by lia. apply Z.mod_small; lia. }
  rewrite Hret, Hcarry, Hdiv, Hmod.
  repeat split.
  intros Hfit'. apply wrap_small.
  destruct Hs1 as (Hst1 & _). unfold in_range in *. lia.
Qed.

Lemma drift_free_witness :
  let w1 := {| tick_get := 999; provider_return := 0 |} in
  let w2 := {| tick_get := 3999; provider_return := 0 |} in
  fst (time_get avr8 w1 clock_init) = 0
  /\ fst (time_get avr8 w2 (snd (time_get avr8 w1 clock_init))) = 0 + 3.
Proof.
  cbv zeta. split; [reflexivity|].
  destruct (drift_free avr8 {| tick_get := 999; provider_return := 0 |}
              {| tick_get := 3999; provider_return := 0 |} clock_init 3)
    as (_ & Hexact & _).
  - constructor; cbn; lia.
  - ranges.
  - ranges.
  - ranges.
  - lia.
  - reflexivity.
  - reflexivity.
  - vm_compute; reflexivity.
  - apply Hexact. vm_compute; reflexivity.
Defined.

(** C6, as the specification states it, fails.  With a provider registered
    (it returned 1000 at registration; the interval is 10 seconds) and no
    call of [time_set] by the application, [time_get] ten seconds later
    returns 1010, and the next [time_get], whose sync takes the provider's
    500, returns 500. *)
Lemma time_gets_counterexample :
  let s := step avr8 {| tick_get := 0; provider_return := 1000 |}
             (EvSetProvider 1 10) clock_init in
  let ws := [ {| tick_get := 10000; provider_return := 0 |};
              {| tick_get := 10000; provider_return := 500 |} ] in
  reachable avr8 s
  /\ Forall (world_ok avr8) ws
  /\ fst (time_gets avr8 ws s) = [1010; 500]
  /\ ~ StronglySorted Z.le (fst (time_gets avr8 ws s)).
Proof.
  cbv zeta. split; [|split; [|split]].
  - apply reachable_step; [apply reachable_init | | ]; ranges.
  - repeat constructor; ranges.
  - vm_compute; reflexivity.
  - intros Hsorted.
    assert (E : fst (time_gets avr8
                       [ {| tick_get := 10000; provider_return := 0 |};
                         {| tick_get := 10000; provider_return := 500 |} ]
                       (step avr8 {| tick_get := 0; provider_return := 1000 |}
                          (EvSetProvider 1 10) clock_init)) = [1010; 500])
      by (vm_compute; reflexivity).
    rewrite E in Hsorted.
    inversion Hsorted as [|? ? _ Hall]; subst.
    inversion Hall as [|? ? Hle _]; subst. lia.
Qed.

(** C6, amended.  Over a sequence of [time_get] calls during which
    [time_set] is not called, neither by the application nor by a
    successful sync inside [time_get], and the seconds counter stays within
    [time_t], the values returned are nondecreasing, and none is below the
    counter the sequence started from. *)
Theorem time_gets_monotonic (p : platform) (ws : list world) (s : clock) :
  platform_ok p -> clock_ok p s -> Forall (world_ok p) ws ->
  gets_steady p ws s ->
  StronglySorted Z.le (fst (time_gets p ws s))
  /\ Forall (fun t => sys_time s <= t) (fst (time_gets p ws s)).
Proof.
  intros Hp Hs Hws Hsteady.
  split; [|apply time_gets_lower_bound; assumption].
  revert s Hs Hws Hsteady.
  induction ws as [|w ws IH]; intros s Hs Hws Hsteady; cbn [time_gets].
  - constructor.
  - inversion Hws as [|? ? Hw Hws']; subst.
    destruct Hsteady as (Hq & Hfit & Hrest).
    destruct (time_get_quiet p w s Hp Hw Hs Hq) as (_ & Hst & _).
    pose proof (time_get_ok p Hp w s Hw Hs) as Hs1.
    pose proof (time_gets_lower_bound p Hp ws _ Hs1 Hws' Hrest) as Hlow.
    specialize (IH _ Hs1 Hws' Hrest).
    destruct (time_get p w s) as [t s1]; cbn [fst snd] in *.
    destruct (time_gets p ws s1) as [ts s2]; cbn [fst] in *.
    constructor; [exact IH|].
    rewrite Hst in Hlow. exact Hlow.
Qed.

Lemma time_gets_monotonic_witness :
  let s := step avr8 {| tick_get := 0; provider_return := 1000 |}
             (EvSetProvider 1 10) clock_init in
  let ws := [ {| tick_get := 2500; provider_return := 0 |};
              {| tick_get := 10000; provider_return := 0 |};
              {| tick_get := 10500; provider_return := 0 |} ] in
  fst (time_gets avr8 ws s) = [1002; 1010; 1010]
  /\ StronglySorted Z.le (fst (time_gets avr8 ws s)).
Proof.
  cbv zeta. split; [vm_compute; reflexivity|].
  apply (time_gets_monotonic avr8).
  - constructor; cbn; lia.
  - ranges.
  - repeat constructor; ranges.
  - vm_compute. repeat split.
Defined.

(* ===================================================================== *)
(** * Scenarios of the specification *)
(* ===================================================================== *)

Example time_break_epoch :
  time_break avr8 0
  = {| tm_sec := 0; tm_min := 0; tm_hour := 0; tm_wday := 5;
       tm_mday := 1; tm_mon := 1; tm_year := 0 |}.
Proof. vm_compute; reflexivity. Qed.

Example time_make_2000_03_01 :
  time_make {| tm_sec := 0; tm_min := 0; tm_hour := 0; tm_wday := 0;
               tm_mday := 1; tm_mon := 3; tm_year := 30 |}
  = 951868800.
Proof. vm_compute; reflexivity. Qed.

Example time_break_2021_03_01 :
  time_break avr8 1614556800
  = {| tm_sec := 0; tm_min := 0; tm_hour := 0; tm_wday := 2;
       tm_mday := 1; tm_mon := 3; tm_year := 51 |}.
Proof. vm_compute; reflexivity. Qed.

(** After [time_set 1000] with an interval of 100 seconds, the [time_get]
    that finds the counter at 1100 and a provider returning 0. *)
Example provider_failure_at_1100 :
  let s0 := time_set avr8 {| tick_get := 0; provider_return := 0 |} 1000
              (set_callback 1 (set_sync_interval 100 clock_init)) in
  let w := {| tick_get := 100000; provider_return := 0 |} in
  let s1 := snd (time_get avr8 w s0) in
  let s2 := snd (time_get avr8 w s1) in
  sys_time s1 = 1100
  /\ sys_time s2 = 1100
  /\ enTimeCurrentStatus s2 = E_TIME_NEEDS_SYNC
  /\ sync_next s2 = 1200.
Proof. vm_compute; repeat split. Qed.

Example register_provider_syncs :
  let w := {| tick_get := 5; provider_return := 1700000000 |} in
  let s := time_set_provider avr8 w 1 0 clock_init in
  fst (time_get avr8 w s) = 1700000000
  /\ enTimeCurrentStatus s = E_TIME_OK
  /\ sync_interval s = 86400.
Proof. vm_compute; repeat split. Qed.

(* ===================================================================== *)
(** * Further properties of the calendar conversions *)
(* ===================================================================== *)

Lemma month_days_before_snoc (n : nat) : forall year i,
  month_days_before (S n) year i
  = month_days_before n year i + break_month_length year (i - 1 + Z.of_nat n).
Proof.
  induction n as [|n IH]; intros year i.
  - rewrite month_days_before_S. cbn [month_days_before].
    replace (i - 1 + Z.of_nat 0) with (i - 1) by lia. lia.
  - rewrite month_days_before_S, IH, (month_days_before_S n).
    replace (i + 1 - 1 + Z.of_nat n) with (i - 1 + Z.of_nat (S n)) by lia.
    lia.
Qed.

Lemma month_days_before_mono (year : Z) (a b : nat) :
  (a <= b)%nat -> (b <= 12)%nat ->
  month_days_before a year 1 <= month_days_before b year 1.
Proof.
  induction 1 as [|b Hab IH]; intros Hb; [lia|].
  rewrite month_days_before_snoc.
  pose proof (break_month_length_bounds year (1 - 1 + Z.of_nat b) ltac:(lia)).
  specialize (IH ltac:(lia)). lia.
Qed.

(** A day of the year lies in one month only. *)
Lemma month_split_unique (year : Z) (a b : nat) (r r' : Z) :
  (a < 12)%nat -> (b < 12)%nat ->
  0 <= r < break_month_length year (Z.of_nat a) ->
  0 <= r' < break_month_length year (Z.of_nat b) ->
  month_days_before a year 1 + r = month_days_before b year 1 + r' ->
  a = b /\ r = r'.
Proof.
  intros Ha Hb Hr Hr' Heq.
  assert (Hstep : forall x y : nat, (x < y)%nat -> (y <= 12)%nat ->
            month_days_before x year 1 + break_month_length year (Z.of_nat x)
            <= month_days_before y year 1).
  { intros x y Hxy Hy.
    pose proof (month_days_before_mono year (S x) y Hxy Hy) as Hm.
    rewrite month_days_before_snoc in Hm.
    replace (1 - 1 + Z.of_nat x) with (Z.of_nat x) in Hm by lia. exact Hm. }
  destruct (Nat.lt_trichotomy a b) as [Hlt|[->|Hgt]].
  - pose proof (Hstep a b Hlt ltac:(lia)). lia.
  - split; [reflexivity | lia].
  - pose proof (Hstep b a Hgt ltac:(lia)). lia.
Qed.

(** The clock and weekday fields, straight from the divisions of
    [time_break]. *)
Lemma time_break_clock_fields (p : platform) (ts : Z) :
  tm_sec (time_break p ts) = wrap32 ts mod 60
  /\ tm_min (time_break p ts) = wrap32 ts / 60 mod 60
  /\ tm_hour (time_break p ts) = wrap32 ts / 60 / 60 mod 24
  /\ tm_wday (time_break p ts) = wrap32 (wrap32 ts / 60 / 60 / 24 + 4) mod 7 + 1.
Proof.
  unfold time_break.
  destruct (break_year_loop p 256 (wrap32 ts / 60 / 60 / 24) 0 0) as [year days].
  destruct (break_month_loop 13 year 0 _) as [month rem].
  repeat split.
Qed.

(** X1.  Whatever the timestamp, [time_break] fills in a date of the
    calendar: seconds and minutes from 0 to 59, hours from 0 to 23, a weekday
    from 1 to 7, a month from 1 to 12, a day that this month has in this year
    (29 February in leap years only) and a year offset from 0 to 136. *)
Theorem time_break_valid (p : platform) (ts : Z) :
  platform_ok p ->
  tm_valid (time_break p ts)
  /\ 1 <= tm_wday (time_break p ts) <= 7
  /\ tm_year (time_break p ts) <= 136.
Proof.
  intros Hp.
  rewrite time_break_wrap32.
  pose proof (Z.mod_pos_bound ts (2 ^ 32) ltac:(lia)) as Hts.
  destruct (time_break_spec p Hp _ Hts)
    as (m & month & rem & -> & Hm & _ & _ & Hmo & Hrem & _).
  unfold tm_valid; cbn [tm_sec tm_min tm_hour tm_wday tm_mday tm_mon tm_year].
  replace (month + 1 - 1) with month by lia.
  pose proof (Z.mod_pos_bound (ts mod 2 ^ 32) 60 ltac:(lia)).
  pose proof (Z.mod_pos_bound (ts mod 2 ^ 32 / 60) 60 ltac:(lia)).
  pose proof (Z.mod_pos_bound (ts mod 2 ^ 32 / 60 / 60) 24 ltac:(lia)).
  pose proof (Z.mod_pos_bound (ts mod 2 ^ 32 / 60 / 60 / 24 + 4) 7 ltac:(lia)).
  lia.
Qed.

Lemma time_break_valid_witness :
  platform_ok avr8 /\ tm_valid (time_break avr8 951782400).
Proof.
  split; [constructor; cbn; lia|].
  apply (time_break_valid avr8 951782400). constructor; cbn; lia.
Defined.

Lemma month_days_before_nonneg (year : Z) (a : nat) :
  (a <= 12)%nat -> 0 <= month_days_before a year 1.
Proof.
  intros Ha. apply (month_days_before_mono year 0 a); lia.
Qed.

(** The days before a month and the month itself fit in the year. *)
Lemma month_days_before_in_year (year : Z) (a : nat) :
  (a < 12)%nat ->
  month_days_before a year 1 + break_month_length year (Z.of_nat a)
  <= year_days year.
Proof.
  intros Ha.
  pose proof (month_days_before_mono year (S a) 12 ltac:(lia) ltac:(lia)) as Hm.
  rewrite month_days_before_snoc, month_days_before_year in Hm.
  replace (1 - 1 + Z.of_nat a) with (Z.of_nat a) in Hm by lia. exact Hm.
Qed.

(** The sum of [time_make], by days and seconds of the day. *)
Lemma time_make_exact_days (t : tm_t) :
  0 <= tm_year t ->
  time_make_exact t
  = 86400 * (days_before_year (Z.to_nat (tm_year t))
             + month_days_before (Z.to_nat (tm_mon t - 1)) (tm_year t) 1
             + (tm_mday t - 1))
    + (tm_hour t * 3600 + tm_min t * 60 + tm_sec t).
Proof.
  intros Hy. unfold time_make_exact.
  rewrite days_before_year_closed, Z2Nat.id by assumption.
  unfold TIME_SECS_PER_DAY, TIME_SECS_PER_HOUR, TIME_SECS_PER_MINUTE. lia.
Qed.

(** A valid date is a day inside its year and a second inside that day. *)
Lemma tm_valid_day (t : tm_t) :
  tm_valid t ->
  let n := Z.to_nat (tm_year t) in
  let day := days_before_year n
             + month_days_before (Z.to_nat (tm_mon t - 1)) (tm_year t) 1
             + (tm_mday t - 1) in
  days_before_year n <= day < days_before_year (S n)
  /\ 0 <= tm_hour t * 3600 + tm_min t * 60 + tm_sec t < 86400.
Proof.
  intros (Hs & Hmi & Hh & Hy & Hmo & Hd); cbv zeta.
  pose proof (month_days_before_nonneg (tm_year t) (Z.to_nat (tm_mon t - 1))
                ltac:(lia)) as H0.
  pose proof (month_days_before_in_year (tm_year t) (Z.to_nat (tm_mon t - 1))
                ltac:(lia)) as H1.
  rewrite Z2Nat.id in H1 by lia.
  cbn [days_before_year]. rewrite Z2Nat.id by lia.
  lia.
Qed.

(** Splitting a number of seconds into days, hours, minutes and seconds. *)
Lemma seconds_split (day h mi s : Z) :
  0 <= s <= 59 -> 0 <= mi <= 59 -> 0 <= h <= 23 ->
  let ts := 86400 * day + (h * 3600 + mi * 60 + s) in
  ts mod 60 = s /\ ts / 60 mod 60 = mi /\ ts / 60 / 60 mod 24 = h
  /\ ts / 60 / 60 / 24 = day.
Proof.
  intros Hs Hmi Hh; cbv zeta.
  assert (E1 : (86400 * day + (h * 3600 + mi * 60 + s)) / 60
               = 1440 * day + (h * 60 + mi)).
  { symmetry; apply Z.div_unique with (r := s); lia. }
  assert (E2 : (1440 * day + (h * 60 + mi)) / 60 = 24 * day + h).
  { symmetry; apply Z.div_unique with (r := mi); lia. }
  assert (E3 : (24 * day + h) / 24 = day).
  { symmetry; apply Z.div_unique with (r := h); lia. }
  rewrite E1, E2, E3. repeat split.
  - symmetry; apply Z.mod_unique with (q := 1440 * day + (h * 60 + mi)); lia.
  - symmetry; apply Z.mod_unique with (q := 24 * day + h); lia.
  - symmetry; apply Z.mod_unique with (q := day); lia.
Qed.

(** X2.  [time_break] undoes [time_make]: for a valid broken-down time
    whose second lies within 32 bits, breaking the timestamp that
    [time_make] returns gives back its second, minute, hour, day, month and
    year; the weekday is computed afresh, whatever [tm_wday] held. *)
Theorem time_break_make (p : platform) (t : tm_t) :
  platform_ok p ->
  tm_valid t ->
  time_make_exact t < 2 ^ 32 ->
  tm_sec (time_break p (time_make t)) = tm_sec t
  /\ tm_min (time_break p (time_make t)) = tm_min t
  /\ tm_hour (time_break p (time_make t)) = tm_hour t
  /\ tm_mday (time_break p (time_make t)) = tm_mday t
  /\ tm_mon (time_break p (time_make t)) = tm_mon t
  /\ tm_year (time_break p (time_make t)) = tm_year t.
Proof.
  intros Hp Hv Hfit.
  pose proof (tm_valid_day t Hv) as Hday. cbv zeta in Hday.
  destruct Hv as (Hs & Hmi & Hh & Hy & Hmo & Hd).
  pose proof (time_make_exact_days t Hy) as Hex.
  set (n := Z.to_nat (tm_year t)) in *.
  set (mo := Z.to_nat (tm_mon t - 1)) in *.
  set (day := days_before_year n + month_days_before mo (tm_year t) 1
              + (tm_mday t - 1)) in *.
  destruct Hday as (Hbr & Htod).
  pose proof (days_before_year_lower n) as Hlow.
  assert (Hrange : 0 <= time_make_exact t < 2 ^ 32) by lia.
  rewrite time_make_wraps.
  unfold wrap32; rewrite (wrap_small 32 _ Hrange).
  destruct (seconds_split day (tm_hour t) (tm_min t) (tm_sec t) Hs Hmi Hh)
    as (E1 & E2 & E3 & E4).
  cbv zeta in E1, E2, E3, E4. rewrite <- Hex in E1, E2, E3, E4.
  destruct (time_break_spec p Hp _ Hrange)
    as (m & month & rem & -> & _ & Hbr' & _ & Hmonth & Hrem & Hsum).
  rewrite E4 in Hbr', Hsum.
  pose proof (year_bracket_unique m n day Hbr' Hbr) as ->.
  assert (Hn : Z.of_nat n = tm_year t) by (subst n; apply Z2Nat.id; lia).
  rewrite Hn in Hrem, Hsum.
  destruct (month_split_unique (tm_year t) (Z.to_nat month) mo rem (tm_mday t - 1))
    as (Hmeq & Hreq).
  - lia.
  - subst mo; lia.
  - rewrite Z2Nat.id by lia. exact Hrem.
  - subst mo. rewrite Z2Nat.id by lia. lia.
  - subst day. lia.
  - cbn [tm_sec tm_min tm_hour tm_mday tm_mon tm_year].
    rewrite E1, E2, E3, Hn. subst mo.
    repeat split; lia.
Qed.

Lemma time_break_make_witness :
  let t := {| tm_sec := 59; tm_min := 59; tm_hour := 23; tm_wday := 0;
              tm_mday := 29; tm_mon := 2; tm_year := 30 |} in
  platform_ok avr8 /\ tm_valid t
  /\ tm_mday (time_break avr8 (time_make t)) = 29
  /\ tm_mon (time_break avr8 (time_make t)) = 2.
Proof.
  cbv zeta.
  assert (Hv : tm_valid {| tm_sec := 59; tm_min := 59; tm_hour := 23;
                           tm_wday := 0; tm_mday := 29; tm_mon := 2;
                           tm_year := 30 |})
    by (unfold tm_valid; vm_compute; intuition discriminate).
  split; [constructor; cbn; lia|]. split; [exact Hv|].
  destruct (time_break_make avr8
              {| tm_sec := 59; tm_min := 59; tm_hour := 23; tm_wday := 0;
                 tm_mday := 29; tm_mon := 2; tm_year := 30 |})
    as (_ & _ & _ & Hd & Hm & _).
  - constructor; cbn; lia.
  - exact Hv.
  - vm_compute; reflexivity.
  - split; [exact Hd | exact Hm].
Defined.

(** X3.  Through the year 2105 (year offset 135) [time_make] does not wrap:
    for a valid broken-down time it returns the exact number of seconds
    since the epoch. *)
Theorem time_make_fits_through_2105 (t : tm_t) :
  tm_valid t ->
  tm_year t <= 135 ->
  time_make t = time_make_exact t /\ 0 <= time_make_exact t < 2 ^ 32.
Proof.
  intros Hv Hy.
  pose proof (tm_valid_day t Hv) as Hday. cbv zeta in Hday.
  destruct Hday as (Hbr & Htod).
  destruct Hv as (_ & _ & _ & Hy0 & _).
  pose proof (time_make_exact_days t Hy0) as Hex.
  pose proof (days_before_year_lower (Z.to_nat (tm_year t))) as Hlow.
  pose proof (days_before_year_mono (S (Z.to_nat (tm_year t))) 136 ltac:(lia))
    as Hmono.
  assert (H136 : days_before_year 136 = 49673) by (vm_compute; reflexivity).
  assert (Hrange : 0 <= time_make_exact t < 2 ^ 32).
  { change (2 ^ 32) with 4294967296. lia. }
  split; [|exact Hrange].
  rewrite time_make_wraps. apply wrap_small. exact Hrange.
Qed.

Lemma time_make_fits_through_2105_witness :
  let t := {| tm_sec := 59; tm_min := 59; tm_hour := 23; tm_wday := 0;
              tm_mday := 31; tm_mon := 12; tm_year := 135 |} in
  time_make t = time_make_exact t /\ time_make t = 4291747199.
Proof.
  cbv zeta.
  destruct (time_make_fits_through_2105
              {| tm_sec := 59; tm_min := 59; tm_hour := 23; tm_wday := 0;
                 tm_mday := 31; tm_mon := 12; tm_year := 135 |}) as (H & _).
  - unfold tm_valid; vm_compute; intuition discriminate.
  - cbn; lia.
  - split; [exact H | vm_compute; reflexivity].
Defined.

(** X4.  Two different 32-bit timestamps never break down to the same
    fields. *)
Theorem time_break_injective (p : platform) (a b : Z) :
  platform_ok p ->
  0 <= a < 2 ^ 32 -> 0 <= b < 2 ^ 32 ->
  time_break p a = time_break p b -> a = b.
Proof.
  intros Hp Ha Hb Heq.
  rewrite <- (time_make_break p Hp a Ha), <- (time_make_break p Hp b Hb), Heq.
  reflexivity.
Qed.

Lemma time_break_injective_witness :
  time_break avr8 86399 <> time_break avr8 86400.
Proof.
  intros Heq.
  assert (H : 86399 = 86400).
  { apply (time_break_injective avr8 86399 86400);
      [constructor; cbn; lia | cbn; lia | cbn; lia | exact Heq]. }
  discriminate H.
Defined.

(** X5.  One day later (86400 seconds, still within 32 bits) [time_break]
    gives the same second, minute and hour and the next weekday, 1 following
    7. *)
Theorem time_break_next_day (p : platform) (ts : Z) :
  0 <= ts -> ts + 86400 < 2 ^ 32 ->
  tm_sec (time_break p (ts + 86400)) = tm_sec (time_break p ts)
  /\ tm_min (time_break p (ts + 86400)) = tm_min (time_break p ts)
  /\ tm_hour (time_break p (ts + 86400)) = tm_hour (time_break p ts)
  /\ tm_wday (time_break p (ts + 86400)) = tm_wday (time_break p ts) mod 7 + 1.
Proof.
  intros H0 Hfit. change (2 ^ 32) with 4294967296 in Hfit.
  destruct (time_break_clock_fields p ts) as (-> & -> & -> & ->).
  destruct (time_break_clock_fields p (ts + 86400)) as (-> & -> & -> & ->).
  assert (Hw : forall x, 0 <= x < 4294967296 -> wrap32 x = x).
  { intros x Hx. apply wrap_small. unfold in_range.
    change (2 ^ 32) with 4294967296. exact Hx. }
  rewrite (Hw ts), (Hw (ts + 86400)) by lia.
  assert (Hd : 0 <= ts / 60 / 60 / 24 < 49710).
  { rewrite !Z.div_div by lia. cbn [Z.mul Pos.mul].
    split; [apply Z.div_pos; lia | apply Z.div_lt_upper_bound; lia]. }
  assert (E1 : (ts + 86400) / 60 = ts / 60 + 1440).
  { replace (ts + 86400) with (ts + 1440 * 60) by lia. apply Z.div_add; lia. }
  assert (E2 : (ts / 60 + 1440) / 60 = ts / 60 / 60 + 24).
  { replace (ts / 60 + 1440) with (ts / 60 + 24 * 60) by lia.
    apply Z.div_add; lia. }
  assert (E3 : (ts / 60 / 60 + 24) / 24 = ts / 60 / 60 / 24 + 1).
  { replace (ts / 60 / 60 + 24) with (ts / 60 / 60 + 1 * 24) by lia.
    apply Z.div_add; lia. }
  rewrite E1, E2, E3.
  rewrite (Hw (ts / 60 / 60 / 24 + 4)), (Hw (ts / 60 / 60 / 24 + 1 + 4)) by lia.
  repeat split.
  - replace (ts + 86400) with (ts + 1440 * 60) by lia. apply Z.mod_add; lia.
  - replace (ts / 60 + 1440) with (ts / 60 + 24 * 60) by lia.
    apply Z.mod_add; lia.
  - replace (ts / 60 / 60 + 24) with (ts / 60 / 60 + 1 * 24) by lia.
    apply Z.mod_add; lia.
  - pose proof (Z.mod_pos_bound (ts / 60 / 60 / 24 + 4) 7 ltac:(lia)) as Hm.
    pose proof (Z.div_mod (ts / 60 / 60 / 24 + 4) 7 ltac:(lia)) as Hdm.
    destruct (Z.eq_dec ((ts / 60 / 60 / 24 + 4) mod 7) 6) as [E|E].
    + rewrite E. change ((6 + 1) mod 7) with 0.
      f_equal. symmetry.
      apply Z.mod_unique with (q := (ts / 60 / 60 / 24 + 4) / 7 + 1); lia.
    + rewrite (Z.mod_small ((ts / 60 / 60 / 24 + 4) mod 7 + 1) 7) by lia.
      f_equal. symmetry.
      apply Z.mod_unique with (q := (ts / 60 / 60 / 24 + 4) / 7); lia.
Qed.

Lemma time_break_next_day_witness :
  tm_wday (time_break avr8 172800) = 7
  /\ tm_wday (time_break avr8 (172800 + 86400)) = 1.
Proof.
  destruct (time_break_next_day avr8 172800) as (_ & _ & _ & H);
    [lia | cbn; lia |].
  split; [reflexivity | rewrite H; reflexivity].
Defined.

(** X6.  The hour, minute and second that [time_break] fills in are the
    second of the day: [hour * 3600 + min * 60 + sec] is the 32-bit
    timestamp modulo 86400. *)
Theorem time_break_second_of_day (p : platform) (ts : Z) :
  tm_hour (time_break p ts) * 3600 + tm_min (time_break p ts) * 60
  + tm_sec (time_break p ts)
  = (ts mod 2 ^ 32) mod 86400.
Proof.
  destruct (time_break_clock_fields p ts) as (-> & -> & -> & _).
  unfold wrap32, wrap. set (x := ts mod 2 ^ 32).
  pose proof (Z.div_mod x 60 ltac:(lia)) as D1.
  pose proof (Z.div_mod (x / 60) 60 ltac:(lia)) as D2.
  pose proof (Z.div_mod (x / 60 / 60) 24 ltac:(lia)) as D3.
  pose proof (Z.mod_pos_bound x 60 ltac:(lia)).
  pose proof (Z.mod_pos_bound (x / 60) 60 ltac:(lia)).
  pose proof (Z.mod_pos_bound (x / 60 / 60) 24 ltac:(lia)).
  apply Z.mod_unique with (q := x / 60 / 60 / 24); lia.
Qed.

(** X7.  The date depends on the day only: two 32-bit timestamps of the same
    day get the same year, month, day of the month and weekday. *)
Theorem time_break_same_day (p : platform) (a b : Z) :
  platform_ok p ->
  0 <= a < 2 ^ 32 -> 0 <= b < 2 ^ 32 ->
  a / 86400 = b / 86400 ->
  tm_year (time_break p a) = tm_year (time_break p b)
  /\ tm_mon (time_break p a) = tm_mon (time_break p b)
  /\ tm_mday (time_break p a) = tm_mday (time_break p b)
  /\ tm_wday (time_break p a) = tm_wday (time_break p b).
Proof.
  intros Hp Ha Hb Hday.
  assert (Hd : a / 60 / 60 / 24 = b / 60 / 60 / 24).
  { rewrite !Z.div_div by lia. exact Hday. }
  destruct (time_break_spec p Hp a Ha)
    as (m & month & rem & -> & _ & Hbr & Hloop & _).
  destruct (time_break_spec p Hp b Hb)
    as (m' & month' & rem' & -> & _ & Hbr' & Hloop' & _).
  rewrite Hd in Hbr, Hloop.
  pose proof (year_bracket_unique m m' _ Hbr Hbr') as <-.
  rewrite Hloop in Hloop'; injection Hloop' as <- <-.
  cbn [tm_year tm_mon tm_mday tm_wday]. rewrite Hd. repeat split.
Qed.

Lemma time_break_same_day_witness :
  tm_mday (time_break avr8 68169600) = tm_mday (time_break avr8 68255999).
Proof.
  destruct (time_break_same_day avr8 68169600 68255999) as (_ & _ & H & _);
    [constructor; cbn; lia | cbn; lia | cbn; lia | reflexivity | exact H].
Defined.

(** X8.  [time_make] does not normalise its fields, it adds them up: sixty
    seconds more count as one minute more, sixty minutes as one hour,
    twenty-four hours as one day of the month, also beyond the usual ranges
    of the fields. *)
Theorem time_make_carries (s mi h wd d mo y : Z) :
  time_make {| tm_sec := s + 60; tm_min := mi; tm_hour := h; tm_wday := wd;
               tm_mday := d; tm_mon := mo; tm_year := y |}
  = time_make {| tm_sec := s; tm_min := mi + 1; tm_hour := h; tm_wday := wd;
                 tm_mday := d; tm_mon := mo; tm_year := y |}
  /\ time_make {| tm_sec := s; tm_min := mi + 60; tm_hour := h; tm_wday := wd;
                  tm_mday := d; tm_mon := mo; tm_year := y |}
     = time_make {| tm_sec := s; tm_min := mi; tm_hour := h + 1; tm_wday := wd;
                    tm_mday := d; tm_mon := mo; tm_year := y |}
  /\ time_make {| tm_sec := s; tm_min := mi; tm_hour := h + 24; tm_wday := wd;
                  tm_mday := d; tm_mon := mo; tm_year := y |}
     = time_make {| tm_sec := s; tm_min := mi; tm_hour := h; tm_wday := wd;
                    tm_mday := d + 1; tm_mon := mo; tm_year := y |}.
Proof.
  rewrite !time_make_wraps. unfold time_make_exact.
  cbn [tm_sec tm_min tm_hour tm_mday tm_mon tm_year].
  unfold TIME_SECS_PER_DAY, TIME_SECS_PER_HOUR, TIME_SECS_PER_MINUTE.
  repeat split; f_equal; lia.
Qed.

(** X9.  Months in [time_make].  A day past the end of a month (months 1 to
    12) is the same day counted into the next month; month 13 is January of
    the next year; and a month of 1 or less (0, outside the documented range,
    included) adds no month at all, like January. *)
Theorem time_make_months (s mi h wd d mo y : Z) :
  (1 <= mo <= 12 -> 0 <= y ->
   time_make {| tm_sec := s; tm_min := mi; tm_hour := h; tm_wday := wd;
                tm_mday := d + break_month_length y (mo - 1); tm_mon := mo;
                tm_year := y |}
   = time_make {| tm_sec := s; tm_min := mi; tm_hour := h; tm_wday := wd;
                  tm_mday := d; tm_mon := mo + 1; tm_year := y |})
  /\ (0 <= y ->
      time_make {| tm_sec := s; tm_min := mi; tm_hour := h; tm_wday := wd;
                   tm_mday := d; tm_mon := 13; tm_year := y |}
      = time_make {| tm_sec := s; tm_min := mi; tm_hour := h; tm_wday := wd;
                     tm_mday := d; tm_mon := 1; tm_year := y + 1 |})
  /\ (mo <= 1 ->
      time_make {| tm_sec := s; tm_min := mi; tm_hour := h; tm_wday := wd;
                   tm_mday := d; tm_mon := mo; tm_year := y |}
      = time_make {| tm_sec := s; tm_min := mi; tm_hour := h; tm_wday := wd;
                     tm_mday := d; tm_mon := 1; tm_year := y |}).
Proof.
  split; [|split].
  - intros Hmo Hy. rewrite !time_make_wraps. f_equal.
    rewrite !time_make_exact_days by assumption.
    cbn [tm_sec tm_min tm_hour tm_mday tm_mon tm_year].
    replace (Z.to_nat (mo + 1 - 1)) with (S (Z.to_nat (mo - 1))) by lia.
    rewrite month_days_before_snoc.
    replace (1 - 1 + Z.of_nat (Z.to_nat (mo - 1))) with (mo - 1) by lia.
    lia.
  - intros Hy. rewrite !time_make_wraps. f_equal.
    rewrite !time_make_exact_days by (cbn [tm_year]; lia).
    cbn [tm_sec tm_min tm_hour tm_mday tm_mon tm_year].
    replace (Z.to_nat (y + 1)) with (S (Z.to_nat y)) by lia.
    change (Z.to_nat (13 - 1)) with 12%nat.
    change (Z.to_nat (1 - 1)) with 0%nat.
    rewrite month_days_before_year.
    cbn [days_before_year month_days_before].
    rewrite Z2Nat.id by assumption. lia.
  - intros Hmo. unfold time_make.
    cbn [tm_sec tm_min tm_hour tm_mday tm_mon tm_year].
    replace (Z.to_nat (mo - 1)) with 0%nat by lia.
    reflexivity.
Qed.

Lemma time_make_months_witness :
  time_make {| tm_sec := 0; tm_min := 0; tm_hour := 0; tm_wday := 0;
               tm_mday := 30; tm_mon := 2; tm_year := 2 |}
  = time_make {| tm_sec := 0; tm_min := 0; tm_hour := 0; tm_wday := 0;
                 tm_mday := 1; tm_mon := 3; tm_year := 2 |}
  /\ time_make {| tm_sec := 0; tm_min := 0; tm_hour := 0; tm_wday := 0;
                  tm_mday := 1; tm_mon := 0; tm_year := 2 |}
     = time_make {| tm_sec := 0; tm_min := 0; tm_hour := 0; tm_wday := 0;
                    tm_mday := 1; tm_mon := 1; tm_year := 2 |}.
Proof.
  split.
  - destruct (time_make_months 0 0 0 0 1 2 2) as (H & _).
    apply H; lia.
  - destruct (time_make_months 0 0 0 0 1 0 2) as (_ & _ & H).
    apply H; lia.
Defined.

(** X10.  [time_break] is portable: the widths of [unsigned] and
    [unsigned long] do not show in its result, since the cast and the
    additions of the year loop never truncate. *)
Theorem time_break_portable (p q : platform) (ts : Z) :
  platform_ok p -> platform_ok q -> time_break p ts = time_break q ts.
Proof. apply time_break_platform. Qed.

Lemma time_break_portable_witness :
  time_break avr8 4294967295 = time_break host64 4294967295.
Proof.
  apply (time_break_portable avr8 host64 4294967295); constructor; cbn; lia.
Defined.

(** X11.  From 1901 to 2099 [time_is_leap] is the rule of four: a year is
    leap exactly when it is divisible by 4.  The century rule first shows
    in 2100. *)
Theorem time_is_leap_rule_of_four (year : Z) :
  1901 <= year <= 2099 ->
  time_is_leap year = (year mod 4 =? 0).
Proof.
  intros Hy. unfold time_is_leap.
  destruct (Z.eqb_spec (year mod 400) 0) as [H400|H400].
  - assert (year = 2000).
    { pose proof (Z.div_mod year 400 ltac:(lia)) as Hd.
      rewrite H400 in Hd.
      assert (year / 400 = 5) by lia. lia. }
    subst year. reflexivity.
  - destruct (Z.eqb_spec (year mod 100) 0) as [H100|H100].
    + assert (year = 2000).
      { pose proof (Z.div_mod year 100 ltac:(lia)) as Hd.
        rewrite H100 in Hd.
        assert (year / 100 = 20) by lia. lia. }
      subst year. exfalso. apply H400. reflexivity.
    + cbn [negb]. rewrite andb_true_r, orb_false_r. reflexivity.
Qed.

Lemma time_is_leap_rule_of_four_witness :
  time_is_leap 2000 = true /\ time_is_leap 2099 = false.
Proof.
  split.
  - rewrite (time_is_leap_rule_of_four 2000); [reflexivity | lia].
  - rewrite (time_is_leap_rule_of_four 2099); [reflexivity | lia].
Defined.

(* ===================================================================== *)
(** * Further properties of the clock *)
(* ===================================================================== *)

Lemma sync_succeeds_true (w : world) (s : clock) :
  sync_attempted s = true -> provider_return w <> 0 -> sync_succeeds w s = true.
Proof.
  intros Ha Hn. unfold sync_succeeds. rewrite Ha.
  destruct (Z.eqb_spec (provider_return w) 0); [contradiction|reflexivity].
Qed.

(** The three outcomes of the sync step. *)
Lemma time_sync_cases (p : platform) (w : world) (s : clock) :
  (sync_attempted s = false /\ time_sync p w s = s)
  \/ (sync_attempted s = true /\ provider_return w = 0
      /\ time_sync p w s
         = set_status
             (match enTimeCurrentStatus s with
              | E_TIME_NOT_SET => E_TIME_NOT_SET
              | _ => E_TIME_NEEDS_SYNC
              end)
             (set_sync_next (wrapT p (sys_time s + sync_interval s))
                (record_call (CallProvider 0) s)))
  \/ (sync_attempted s = true /\ provider_return w <> 0
      /\ time_sync p w s
         = time_set p w (provider_return w)
             (record_call (CallProvider (provider_return w)) s)).
Proof.
  destruct (sync_attempted s) eqn:Ha.
  - destruct (Z.eq_dec (provider_return w) 0) as [H0|Hn0].
    + right; left. repeat split; [exact H0|].
      apply time_sync_failure; assumption.
    + right; right. repeat split; [exact Hn0|].
      apply time_sync_success, sync_succeeds_true; assumption.
  - left. split; [reflexivity|]. apply time_sync_idle, Ha.
Qed.

(** Neither half of [time_get] writes the interval or the callback. *)
Lemma time_get_frame (p : platform) (w : world) (s : clock) :
  sync_interval (snd (time_get p w s)) = sync_interval s
  /\ time_provider_callback (snd (time_get p w s)) = time_provider_callback s.
Proof.
  unfold time_get; cbn [snd].
  pose proof (time_tick_loop_frame p w
                (Z.to_nat (elapsed_ticks p w (time_sync p w (record_call CallGet s))
                           / TICK_SECOND p))
                (time_sync p w (record_call CallGet s))) as Hf.
  cbv zeta in Hf. destruct Hf as (Hi & _ & _ & Hc & _).
  unfold time_tick. rewrite Hi, Hc.
  destruct (time_sync_cases p w (record_call CallGet s))
    as [(_ & ->)|[(_ & _ & ->)|(_ & _ & ->)]]; split; reflexivity.
Qed.

Lemma time_get_history (p : platform) (w : world) (s : clock) :
  history (snd (time_get p w s)) = sync_calls w s ++ CallGet :: history s.
Proof.
  unfold time_get; cbn [snd].
  destruct (time_tick_frame p w (time_sync p w (record_call CallGet s)))
    as (_ & ->).
  unfold sync_calls.
  destruct (time_sync_cases p w (record_call CallGet s))
    as [(Ha & ->)|[(Ha & H0 & ->)|(Ha & Hn0 & ->)]];
    change (sync_attempted (record_call CallGet s)) with (sync_attempted s) in Ha;
    rewrite Ha.
  - reflexivity.
  - rewrite H0. reflexivity.
  - destruct (Z.eqb_spec (provider_return w) 0); [contradiction|reflexivity].
Qed.

Lemma time_get_status (p : platform) (w : world) (s : clock) :
  enTimeCurrentStatus (snd (time_get p w s))
  = enTimeCurrentStatus (time_sync p w (record_call CallGet s)).
Proof.
  unfold time_get; cbn [snd].
  destruct (time_tick_frame p w (time_sync p w (record_call CallGet s)))
    as (-> & _). reflexivity.
Qed.

(** [time_get] keeps "not set" and "never set" together. *)
Lemma time_get_not_set (p : platform) (w : world) (s : clock) :
  (enTimeCurrentStatus s = E_TIME_NOT_SET <-> set_called (history s) = false) ->
  (enTimeCurrentStatus (snd (time_get p w s)) = E_TIME_NOT_SET
   <-> set_called (history (snd (time_get p w s))) = false).
Proof.
  intros Hinv.
  rewrite time_get_status, time_get_history. unfold sync_calls.
  destruct (time_sync_cases p w (record_call CallGet s))
    as [(Ha & ->)|[(Ha & H0 & ->)|(Ha & Hn0 & ->)]];
    change (sync_attempted (record_call CallGet s)) with (sync_attempted s) in Ha;
    rewrite Ha.
  - exact Hinv.
  - rewrite H0.
    change (set_called ((if 0 =? 0 then [CallProvider 0]
                         else [CallSet 0; CallProvider 0])
                        ++ CallGet :: history s))
      with (set_called (history s)).
    cbn [set_status enTimeCurrentStatus set_sync_next record_call].
    destruct (enTimeCurrentStatus s); [exact Hinv | exact Hinv |].
    split; [discriminate|]. intros H. apply Hinv in H. discriminate H.
  - destruct (Z.eqb_spec (provider_return w) 0); [contradiction|].
    cbn. split; discriminate.
Qed.

(** X12.  In every reachable state the status is [E_TIME_NOT_SET] if and
    only if [time_set] has never been called, neither by the application
    nor by a sync: once the clock has been set it never reads "not set"
    again, whatever the provider does later. *)
Theorem status_not_set_law (p : platform) (s : clock) :
  reachable p s ->
  (enTimeCurrentStatus s = E_TIME_NOT_SET <-> set_called (history s) = false).
Proof.
  induction 1 as [|w e s Hr IH Hw He].
  - cbn; split; reflexivity.
  - destruct e as [now| |callback timespan]; cbn [step].
    + cbn; split; discriminate.
    + apply time_get_not_set, IH.
    + unfold time_set_provider.
      destruct (callback =? 0); [exact IH|].
      apply time_get_not_set. exact IH.
Qed.

Lemma status_not_set_law_witness :
  let s := step avr8 {| tick_get := 7; provider_return := 0 |}
             (EvSetProvider 1 0) clock_init in
  reachable avr8 s
  /\ set_called (history s) = false
  /\ enTimeCurrentStatus s = E_TIME_NOT_SET.
Proof.
  cbv zeta.
  assert (Hr : reachable avr8
                 (step avr8 {| tick_get := 7; provider_return := 0 |}
                    (EvSetProvider 1 0) clock_init)).
  { apply reachable_step; [apply reachable_init | | ]; ranges. }
  split; [exact Hr|]. split; [reflexivity|].
  apply (status_not_set_law avr8 _ Hr). reflexivity.
Defined.

(** X13.  The sync interval is never 0: it starts at 86400, and
    [time_set_provider], the only function that writes it, replaces a
    requested 0 by 86400. *)
Theorem sync_interval_positive (p : platform) (s : clock) :
  reachable p s -> 0 < sync_interval s.
Proof.
  induction 1 as [|w e s Hr IH Hw He].
  - cbn; lia.
  - destruct e as [now| |callback timespan]; cbn [step].
    + exact IH.
    + destruct (time_get_frame p w s) as (-> & _). exact IH.
    + unfold time_set_provider.
      destruct (callback =? 0); [exact IH|].
      destruct (time_get_frame p w
                  (set_sync_next
                     (sys_time
                        (set_sync_interval
                           (if timespan =? 0 then TIME_SECS_PER_DAY else timespan)
                           (set_callback callback s)))
                     (set_sync_interval
                        (if timespan =? 0 then TIME_SECS_PER_DAY else timespan)
                        (set_callback callback s)))) as (-> & _).
      cbn [set_sync_next set_sync_interval sync_interval].
      destruct He as (_ & Hspan). unfold in_range in Hspan.
      destruct (Z.eqb_spec timespan 0); [unfold TIME_SECS_PER_DAY; lia | lia].
Qed.

Lemma sync_interval_positive_witness :
  let s := step avr8 {| tick_get := 7; provider_return := 0 |}
             (EvSetProvider 1 0) clock_init in
  reachable avr8 s /\ sync_interval s = 86400 /\ 0 < sync_interval s.
Proof.
  cbv zeta.
  assert (Hr : reachable avr8
                 (step avr8 {| tick_get := 7; provider_return := 0 |}
                    (EvSetProvider 1 0) clock_init)).
  { apply reachable_step; [apply reachable_init | | ]; ranges. }
  split; [exact Hr|]. split; [reflexivity|].
  apply (sync_interval_positive avr8 _ Hr).
Defined.

(** X14.  A provider, once registered, stays registered: [time_set] and
    [time_get] do not write the callback, and [time_set_provider] writes a
    non-null one or nothing.  No call of the API makes the callback null
    again. *)
Theorem provider_stays_registered (p : platform) (w : world) (e : event)
    (s : clock) :
  time_provider_callback s <> 0 ->
  time_provider_callback (step p w e s) <> 0.
Proof.
  intros Hreg.
  destruct e as [now| |callback timespan]; cbn [step].
  - exact Hreg.
  - destruct (time_get_frame p w s) as (_ & ->). exact Hreg.
  - unfold time_set_provider.
    destruct (Z.eqb_spec callback 0) as [|Hcb]; [exact Hreg|].
    match goal with
    | |- time_provider_callback (snd (time_get p w ?x)) <> 0 =>
        destruct (time_get_frame p w x) as (_ & ->)
    end.
    exact Hcb.
Qed.

Lemma provider_stays_registered_witness :
  let s := set_callback 5 clock_init in
  time_provider_callback
    (step avr8 {| tick_get := 0; provider_return := 0 |} (EvSetProvider 0 10) s)
  <> 0.
Proof.
  cbv zeta.
  apply (provider_stays_registered avr8). cbn. discriminate.
Defined.

(** X15.  The calls one [time_get] makes: it invokes the provider exactly
    when a sync is due and a provider is registered, then once only, and it
    calls [time_set] exactly when the provider returned a nonzero time, with
    that time. *)
Theorem time_get_calls (p : platform) (w : world) (s : clock) :
  history (snd (time_get p w s))
  = (if (sync_next s <=? sys_time s) && negb (time_provider_callback s =? 0)
     then
       if provider_return w =? 0 then [CallProvider 0]
       else [CallSet (provider_return w); CallProvider (provider_return w)]
     else [])
    ++ CallGet :: history s.
Proof.
  rewrite time_get_history. unfold sync_calls, sync_attempted.
  destruct ((sync_next s <=? sys_time s) && negb (time_provider_callback s =? 0));
    [|reflexivity].
  destruct (Z.eqb_spec (provider_return w) 0) as [->|]; reflexivity.
Qed.

Lemma wrap_add (bits a b : Z) :
  wrap bits (a + b) = wrap bits (wrap bits a + wrap bits b).
Proof. unfold wrap; apply Zplus_mod. Qed.


(** The ticks the loop guard reads when [d] ticks have passed since the
    tick mark. *)
Lemma elapsed_ticks_since (p : platform) (w : world) (s : clock) (d : Z) :
  0 <= d < 2 ^ ulong_bits p ->
  tick_get w = wrapUL p (last_update s + d) ->
  elapsed_ticks p w s = d.
Proof.
  intros Hd Htick. unfold elapsed_ticks, wrapUL in *.
  rewrite Htick, wrap_sub_l.
  replace (last_update s + d - last_update s) with d by lia.
  apply wrap_small, Hd.
Qed.




(** X17.  When no sync is due, or no provider is registered, [time_get]
    only counts ticks: it leaves the status, the sync schedule and the
    interval as they are, invokes nothing, and returns the counter plus the
    whole seconds in the elapsed ticks. *)
Theorem time_get_no_sync (p : platform) (w : world) (s : clock) :
  platform_ok p -> clock_ok p s -> world_ok p w ->
  sys_time s < sync_next s \/ time_provider_callback s = 0 ->
  fst (time_get p w s)
  = wrapT p (sys_time s + elapsed_ticks p w s / TICK_SECOND p)
  /\ enTimeCurrentStatus (snd (time_get p w s)) = enTimeCurrentStatus s
  /\ sync_next (snd (time_get p w s)) = sync_next s
  /\ sync_interval (snd (time_get p w s)) = sync_interval s
  /\ history (snd (time_get p w s)) = CallGet :: history s.
Proof.
  intros Hp Hs Hw Hidle.
  assert (Ha : sync_attempted (record_call CallGet s) = false).
  { unfold sync_attempted; cbn [record_call sync_next sys_time
                                 time_provider_callback].
    destruct Hidle as [Hdue|Hcb].
    - destruct (Z.leb_spec (sync_next s) (sys_time s)); [lia|reflexivity].
    - rewrite Hcb. apply andb_false_r. }
  assert (Hq : sync_succeeds w s = false).
  { unfold sync_succeeds.
    change (sync_attempted s) with (sync_attempted (record_call CallGet s)).
    rewrite Ha. reflexivity. }
  destruct (time_get_quiet p w s Hp Hw Hs Hq) as (Hret & _).
  split; [exact Hret|].
  unfold time_get; cbn [snd]. rewrite (time_sync_idle p w _ Ha).
  pose proof (time_tick_loop_frame p w
                (Z.to_nat (elapsed_ticks p w (record_call CallGet s)
                           / TICK_SECOND p))
                (record_call CallGet s)) as Hf.
  cbv zeta in Hf. destruct Hf as (Hi & Hn & Hst & _ & Hh).
  unfold time_tick. rewrite Hi, Hn, Hst, Hh. repeat split.
Qed.

Lemma time_get_no_sync_witness :
  fst (time_get avr8 {| tick_get := 61500; provider_return := 99 |} clock_init)
  = 61
  /\ enTimeCurrentStatus
       (snd (time_get avr8 {| tick_get := 61500; provider_return := 99 |}
               clock_init))
     = E_TIME_NOT_SET.
Proof.
  destruct (time_get_no_sync avr8
              {| tick_get := 61500; provider_return := 99 |} clock_init)
    as (Hret & Hst & _).
  - constructor; cbn; lia.
  - ranges.
  - ranges.
  - right; reflexivity.
  - split; [rewrite Hret; reflexivity | rewrite Hst; reflexivity].
Defined.

(** X18.  [time_get] catches up completely: when it returns, fewer than
    [TICK_SECOND] ticks have passed since the tick mark, whatever the sync
    did. *)
Theorem time_get_catches_up (p : platform) (w : world) (s : clock) :
  platform_ok p -> clock_ok p s -> world_ok p w ->
  0 <= elapsed_ticks p w (snd (time_get p w s)) < TICK_SECOND p.
Proof.
  intros Hp Hs Hw.
  pose proof (time_sync_ok p Hp w _ Hw
                (Hs : clock_ok p (record_call CallGet s)))
    as (Hr1 & _ & _ & Hr2).
  pose proof (time_tick_exits p Hp w _ Hr1 Hr2) as Hex.
  apply Z.leb_gt in Hex.
  pose proof (elapsed_ticks_range p Hp w (snd (time_get p w s))) as Hr.
  unfold time_get in *; cbn [snd] in *. lia.
Qed.

Lemma time_get_catches_up_witness :
  elapsed_ticks avr8 {| tick_get := 61500; provider_return := 0 |}
    (snd (time_get avr8 {| tick_get := 61500; provider_return := 0 |}
            clock_init))
  < 1000.
Proof.
  apply (time_get_catches_up avr8
           {| tick_get := 61500; provider_return := 0 |} clock_init).
  - constructor; cbn; lia.
  - ranges.
  - ranges.
Defined.

(** X19.  Asking again at once changes nothing: a second [time_get] at the
    same tick, its sync not succeeding, returns what the first returned. *)
Theorem time_get_twice (p : platform) (w : world) (s : clock) :
  platform_ok p -> clock_ok p s -> world_ok p w ->
  sync_succeeds w (snd (time_get p w s)) = false ->
  fst (time_get p w (snd (time_get p w s))) = fst (time_get p w s).
Proof.
  intros Hp Hs Hw Hq.
  pose proof (time_get_ok p Hp w s Hw Hs) as Hs1.
  pose proof (time_sync_ok p Hp w _ Hw
                (Hs : clock_ok p (record_call CallGet s)))
    as (Hr1 & _ & _ & Hr2).
  pose proof (time_tick_exits p Hp w _ Hr1 Hr2) as Hex.
  apply Z.leb_gt in Hex.
  pose proof (elapsed_ticks_range p Hp w (snd (time_get p w s))) as Hr.
  destruct (time_get_quiet p w _ Hp Hw Hs1 Hq) as (-> & _).
  change (fst (time_get p w s)) with (sys_time (snd (time_get p w s))).
  unfold time_get in Hex, Hr |- *; cbn [snd] in *.
  rewrite Z.div_small by lia. rewrite Z.add_0_r.
  apply wrap_small.
  apply (time_tick_ok p Hp w _ (time_sync_ok p Hp w _ Hw
           (Hs : clock_ok p (record_call CallGet s)))).
Qed.

Lemma time_get_twice_witness :
  let w := {| tick_get := 61500; provider_return := 0 |} in
  fst (time_get avr8 w (snd (time_get avr8 w clock_init))) = 61.
Proof.
  cbv zeta.
  rewrite (time_get_twice avr8 {| tick_get := 61500; provider_return := 0 |}
             clock_init).
  - reflexivity.
  - constructor; cbn; lia.
  - ranges.
  - ranges.
  - reflexivity.
Defined.

(** X20.  Polling more often does not change the time read.  Let [d1] and
    then [d2] ticks (fewer than one wrap of the counter) have passed since
    the tick mark: reading the clock at [d1] and again at [d2] returns, the
    second time, what a single read at [d2] returns, as long as no sync
    succeeds in these calls.  No fraction of a second is lost between
    reads. *)
Theorem time_get_polling_independent (p : platform) (w1 w2 : world)
    (s : clock) (d1 d2 : Z) :
  platform_ok p -> clock_ok p s -> world_ok p w1 -> world_ok p w2 ->
  0 <= d1 <= d2 -> d2 < 2 ^ ulong_bits p ->
  tick_get w1 = wrapUL p (last_update s + d1) ->
  tick_get w2 = wrapUL p (last_update s + d2) ->
  sync_succeeds w1 s = false ->
  sync_succeeds w2 s = false ->
  sync_succeeds w2 (snd (time_get p w1 s)) = false ->
  fst (time_get p w2 (snd (time_get p w1 s))) = fst (time_get p w2 s)
  /\ fst (time_get p w2 s) = wrapT p (sys_time s + d2 / TICK_SECOND p).
Proof.
  intros Hp Hs Hw1 Hw2 Hd1 Hd2 Ht1 Ht2 Hq1 Hq2 Hq12.
  pose proof (TICK_SECOND_pos p Hp) as Ht.
  pose proof (elapsed_ticks_since p w1 s d1 ltac:(lia) Ht1) as He1.
  pose proof (elapsed_ticks_since p w2 s d2 ltac:(lia) Ht2) as He2.
  pose proof (time_get_ok p Hp w1 s Hw1 Hs) as Hs1.
  destruct (time_get_quiet p w1 s Hp Hw1 Hs Hq1) as (Hret1 & Hst1 & Hcar1).
  destruct (time_get_quiet p w2 s Hp Hw2 Hs Hq2) as (Hret2 & _).
  destruct (time_get_quiet p w2 _ Hp Hw2 Hs1 Hq12) as (Hret12 & _).
  rewrite He1 in Hret1, Hcar1. rewrite He2 in Hret2.
  split; [|exact Hret2].
  rewrite Hret12, Hret2, Hst1, Hret1.
  (* the ticks the second read sees *)
  pose proof (Z.div_mod d1 (TICK_SECOND p) ltac:(lia)) as Hdm.
  pose proof (Z.mod_pos_bound d1 (TICK_SECOND p) Ht) as Hmod.
  assert (He12 : elapsed_ticks p w2 (snd (time_get p w1 s))
                 = d2 - TICK_SECOND p * (d1 / TICK_SECOND p)).
  { unfold elapsed_ticks in *. unfold wrapUL in *.
    replace (tick_get w2 - last_update (snd (time_get p w1 s)))
      with ((tick_get w2 - tick_get w1)
            + (tick_get w1 - last_update (snd (time_get p w1 s)))) by lia.
    rewrite wrap_add, Hcar1, Ht1, Ht2.
    rewrite wrap_sub_l, wrap_sub_r.
    replace (last_update s + d2 - (last_update s + d1)) with (d2 - d1) by lia.
    rewrite (wrap_small _ (d2 - d1)) by (unfold in_range; lia).
    pose proof (Z.mod_le d1 (TICK_SECOND p) ltac:(lia) Ht).
    rewrite wrap_small by (unfold in_range; lia). lia. }
  rewrite He12.
  replace (d2 - TICK_SECOND p * (d1 / TICK_SECOND p))
    with (d2 + (- (d1 / TICK_SECOND p)) * TICK_SECOND p) by lia.
  rewrite Z.div_add by lia.
  unfold wrapT. rewrite wrap_add_l. f_equal. lia.
Qed.

Lemma time_get_polling_independent_witness :
  let w1 := {| tick_get := 1700; provider_return := 0 |} in
  let w2 := {| tick_get := 3100; provider_return := 0 |} in
  fst (time_get avr8 w2 (snd (time_get avr8 w1 clock_init))) = 3
  /\ fst (time_get avr8 w2 clock_init) = 3.
Proof.
  cbv zeta.
  destruct (time_get_polling_independent avr8
              {| tick_get := 1700; provider_return := 0 |}
              {| tick_get := 3100; provider_return := 0 |}
              clock_init 1700 3100) as (H1 & H2).
  - constructor; cbn; lia.
  - ranges.
  - ranges.
  - ranges.
  - lia.
  - cbn; lia.
  - reflexivity.
  - reflexivity.
  - reflexivity.
  - reflexivity.
  - reflexivity.
  - split; [rewrite H1, H2; reflexivity | rewrite H2; reflexivity].
Defined.

(** X21.  Set, then get.  After [time_set now], a [time_get] taken [d] ticks
    later (fewer than one wrap of the counter), its sync not succeeding,
    returns [now] plus the whole seconds in [d]: the ticks carried over
    before the [time_set] are dropped, and within the first second the
    clock still reads [now]. *)
Theorem time_set_then_get (p : platform) (w0 w : world) (s : clock)
    (now d : Z) :
  platform_ok p -> clock_ok p s -> world_ok p w0 -> world_ok p w ->
  in_range (time_bits p) now ->
  0 <= d < 2 ^ ulong_bits p ->
  tick_get w = wrapUL p (tick_get w0 + d) ->
  sync_succeeds w (time_set p w0 now s) = false ->
  fst (time_get p w (time_set p w0 now s))
  = wrapT p (now + d / TICK_SECOND p)
  /\ (d < TICK_SECOND p -> fst (time_get p w (time_set p w0 now s)) = now).
Proof.
  intros Hp Hs Hw0 Hw Hnow Hd Htick Hq.
  pose proof (time_set_ok p Hp w0 now s Hw0 Hnow Hs) as Hs1.
  destruct (time_get_quiet p w _ Hp Hw Hs1 Hq) as (Hret & _).
  rewrite (elapsed_ticks_since p w (time_set p w0 now s) d Hd Htick) in Hret.
  cbn [time_set set_last_update set_status set_sync_next set_sys_time
       record_call sys_time] in Hret.
  split; [exact Hret|].
  intros Hlt. rewrite Hret, Z.div_small, Z.add_0_r by lia.
  apply wrap_small, Hnow.
Qed.

Lemma time_set_then_get_witness :
  let w0 := {| tick_get := 4294967000; provider_return := 0 |} in
  let w := {| tick_get := 2204; provider_return := 0 |} in
  fst (time_get avr8 w (time_set avr8 w0 1000 clock_init)) = 1002.
Proof.
  cbv zeta.
  destruct (time_set_then_get avr8
              {| tick_get := 4294967000; provider_return := 0 |}
              {| tick_get := 2204; provider_return := 0 |}
              clock_init 1000 2500) as (H & _).
  - constructor; cbn; lia.
  - ranges.
  - ranges.
  - ranges.
  - ranges.
  - cbn; lia.
  - reflexivity.
  - reflexivity.
  - rewrite H. reflexivity.
Defined.




